(** * toy-kafka: the file-backed message store

    A shallow embedding of package [filestore]
    (svr/backends/implementations/filestore/filestore.go), the storage
    backend that is to provide the [BackingStore] interface of package
    [contract], with the properties of the storage specification stated
    against it.

    The Go code is imperative: it reads and writes the mounted file
    system, reads the clock, and takes a process-wide mutex.  All of
    that state is gathered in a [World] that every operation receives
    and returns; the standard-library calls the package makes ([os],
    [io/ioutil], [time], [sync]) are given the behaviour their Go
    documentation states, on a POSIX file system. *)

From Stdlib Require Import ZArith Ascii.
From stdpp Require Import gmap strings list fin_maps sorting pretty.

Local Open Scope string_scope.
Local Open Scope list_scope.
Local Open Scope Z_scope.

(** ** Errors *)

(** The system errors ([syscall.Errno]) that the calls below can give. *)
Inductive errno :=
  ENOENT | EEXIST | ENOTDIR | EISDIR | EBADF | EACCES | EIO | ENOSPC.

(** Failures that come from outside the modelled state (permissions,
    the device): the environment may impose one on any system call. *)
Inductive fault := Denied | DeviceError | DeviceFull.

Definition fault_errno (f : fault) : errno :=
  match f with
  | Denied => EACCES
  | DeviceError => EIO
  | DeviceFull => ENOSPC
  end.

(** A path is the list of its components below the file-system root. *)
Abbreviation path := (list string).

(** Go [error] values: [*os.PathError], an [encoding/gob] error, and
    [fmt.Errorf(format, err)] with the one [%v] the package always uses. *)
Inductive error :=
| PathError (op : string) (name : path) (e : errno)
| GobError (what : string)
| Errorf (format : string) (cause : error).

#[global] Instance errno_eq_dec : EqDecision errno.
Proof. solve_decision. Defined.

(** [os.IsExist]: the error reports that a file or directory already
    exists.  It looks inside a [*PathError]; an error built by
    [fmt.Errorf] with [%v] carries only text and is not recognised. *)
Definition os_IsExist (err : error) : bool :=
  match err with
  | PathError _ _ EEXIST => true
  | _ => false
  end.

(** ** The world *)

Inductive node :=
| Dir
| Reg (content : list Byte.byte).

Inductive event := Lock | Unlock.

Record World := mkWorld {
  fs : gmap path node;            (* the mounted file system *)
  faults : list (option fault);   (* what the environment does to the coming system calls *)
  clock : list Z;                 (* the coming readings of time.Now() *)
  mutex_log : list event          (* calls made on the package-level mutex, oldest first *)
}.

Definition set_fs (m : gmap path node) (w : World) : World :=
  mkWorld m (faults w) (clock w) (mutex_log w).

(** ** Computations over the world *)

Definition M (A : Type) : Type := World → A * World.

Definition ret {A} (a : A) : M A := λ w, (a, w).

Definition bind {A B} (c : M A) (k : A → M B) : M B :=
  λ w, let (a, w1) := c w in k a w1.

Notation "x <- c ;; k" := (bind c (λ x, k))
  (at level 100, c at next level, right associativity).

(** One system call is about to be made: what does the environment do to it? *)
Definition next_fault : M (option errno) :=
  λ w, match faults w with
       | [] => (None, w)
       | f :: rest =>
           (fault_errno <$> f, mkWorld (fs w) rest (clock w) (mutex_log w))
       end.

(** [time.Now()] *)
Definition time_Now : M Z :=
  λ w, match clock w with
       | [] => (0, w)
       | t :: rest => (t, mkWorld (fs w) (faults w) rest (mutex_log w))
       end.

(** [mutex.Lock()], [mutex.Unlock()] *)
Definition mutex_Lock : M unit :=
  λ w, (tt, mkWorld (fs w) (faults w) (clock w) (mutex_log w ++ [Lock])).
Definition mutex_Unlock : M unit :=
  λ w, (tt, mkWorld (fs w) (faults w) (clock w) (mutex_log w ++ [Unlock])).

(** ** Package os *)

Definition O_RDONLY : Z := 0.
Definition O_WRONLY : Z := 1.
Definition O_RDWR : Z := 2.
Definition O_CREATE : Z := 64.     (* 0x40 *)
Definition O_TRUNC : Z := 512.     (* 0x200 *)
Definition O_APPEND : Z := 1024.   (* 0x400 *)

(** "Exactly one of O_RDONLY, O_WRONLY, or O_RDWR must be specified.
    ... The remaining values may be or'ed in to control behavior."  The
    access mode is the two low bits of the flag, and [O_RDONLY] is 0: a
    flag that names neither [O_WRONLY] nor [O_RDWR], such as [O_APPEND]
    on its own, opens the file for reading only. *)
Definition writable (flag : Z) : bool :=
  let acc := Z.land flag 3 in (acc =? O_WRONLY) || (acc =? O_RDWR).
Definition has_flag (flag bit : Z) : bool := negb (Z.land flag bit =? 0).

(** [*os.File]: the name and the flag the file was opened with.  Open
    descriptors are not a resource of the world, so the deferred
    [file.Close()] of the package has nothing to change in it. *)
Record File := mkFile { f_name : path; f_flag : Z }.

Definition parent (p : path) : path := removelast p.

(** The error of a path that is not there.  What is nearest above it
    decides: below a regular file the error is ENOTDIR; below a
    directory, or with nothing above it, ENOENT.  [up] is the path above,
    its last component first. *)
Fixpoint lost_below (m : gmap path node) (up : list string) : errno :=
  match up with
  | [] => ENOENT
  | _ :: above =>
      match m !! rev up with
      | Some (Reg _) => ENOTDIR
      | Some Dir => ENOENT
      | None => lost_below m above
      end
  end.

Definition lost (m : gmap path node) (p : path) : errno :=
  lost_below m (tail (rev p)).

(** Is [p] a directory?  The root always is. *)
Definition dir_status (m : gmap path node) (p : path) : option errno :=
  match p with
  | [] => None
  | _ => match m !! p with
         | Some Dir => None
         | Some (Reg _) => Some ENOTDIR
         | None => Some (lost m p)
         end
  end.

(** open(2) on [name].  A name that is not there is made with
    [O_CREATE], in a directory that is; without it the call fails as the
    path is [lost]: below a regular file with ENOTDIR, with ENOENT
    otherwise. *)
Definition open_fs (m : gmap path node) (name : path) (flag : Z)
  : errno + gmap path node :=
  match name with
  | [] => if writable flag then inl EISDIR else inr m
  | _ =>
    match m !! name with
    | Some Dir => if writable flag then inl EISDIR else inr m
    | Some (Reg _) =>
        if has_flag flag O_TRUNC && writable flag
        then inr (<[name := Reg []]> m) else inr m
    | None =>
        if has_flag flag O_CREATE then
          match dir_status m (parent name) with
          | Some e => inl e
          | None => inr (<[name := Reg []]> m)
          end
        else inl (lost m name)
    end
  end.

(** [os.OpenFile(name, flag, perm)] *)
Definition os_OpenFile (name : path) (flag : Z) (perm : Z) : M (error + File) :=
  f <- next_fault ;;
  match f with
  | Some e => ret (inl (PathError "open" name e))
  | None =>
      λ w, match open_fs (fs w) name flag with
           | inl e => (inl (PathError "open" name e), w)
           | inr m => (inr (mkFile name flag), set_fs m w)
           end
  end.

(** [os.Open(name)]: "opens the named file for reading ... the
    associated file descriptor has mode O_RDONLY". *)
Definition os_Open (name : path) : M (error + File) :=
  os_OpenFile name O_RDONLY 0.

(** [os.Create(name)]: "creates or truncates the named file ... the
    associated file descriptor has mode O_RDWR". *)
Definition os_Create (name : path) : M (error + File) :=
  os_OpenFile name (Z.lor O_RDWR (Z.lor O_CREATE O_TRUNC)) 438 (* 0666 *).

(** The bytes of a file after [b] is written through a descriptor that
    has just been opened: at the end with [O_APPEND], over the start
    otherwise. *)
Definition written (flag : Z) (old b : list Byte.byte) : list Byte.byte :=
  if has_flag flag O_APPEND then old ++ b else b ++ drop (length b) old.

(** [file.Write(b)].  A descriptor without write access refuses the
    write with EBADF. *)
Definition file_Write (file : File) (b : list Byte.byte) : M (Z * option error) :=
  f <- next_fault ;;
  match f with
  | Some e => ret (0, Some (PathError "write" (f_name file) e))
  | None =>
      λ w,
        if writable (f_flag file) then
          match fs w !! f_name file with
          | Some (Reg old) =>
              (Z.of_nat (length b),
               None,
               set_fs (<[f_name file := Reg (written (f_flag file) old b)]> (fs w)) w)
          | _ => ((0, Some (PathError "write" (f_name file) EBADF)), w)
          end
        else ((0, Some (PathError "write" (f_name file) EBADF)), w)
  end.

(** Reading the whole of an open file. *)
Definition file_ReadAll (file : File) : M (error + list Byte.byte) :=
  f <- next_fault ;;
  match f with
  | Some e => ret (inl (PathError "read" (f_name file) e))
  | None =>
      λ w,
        if Z.land (f_flag file) 3 =? O_WRONLY
        then (inl (PathError "read" (f_name file) EBADF), w)
        else match fs w !! f_name file with
             | Some (Reg c) => (inr c, w)
             | _ => (inl (PathError "read" (f_name file) EISDIR), w)
             end
  end.

(** [file.Stat()], of which the package uses [Size()] only.  What a
    directory reports as its size is the file system's business; it is
    one block of 4096 bytes here. *)
Definition file_Stat (file : File) : M (error + Z) :=
  f <- next_fault ;;
  match f with
  | Some e => ret (inl (PathError "stat" (f_name file) e))
  | None =>
      λ w, match fs w !! f_name file with
           | Some (Reg c) => (inr (Z.of_nat (length c)), w)
           | Some Dir => (inr 4096, w)
           | None =>
               match f_name file with
               | [] => (inr 4096, w)
               | _ => (inl (PathError "stat" (f_name file) ENOENT), w)
               end
           end
  end.

Definition mkdir_fs (m : gmap path node) (name : path)
  : errno + gmap path node :=
  match name with
  | [] => inl EEXIST
  | _ =>
    match dir_status m (parent name) with
    | Some e => inl e
    | None =>
        match m !! name with
        | Some _ => inl EEXIST
        | None => inr (<[name := Dir]> m)
        end
    end
  end.

(** [os.Mkdir(name, perm)] *)
Definition os_Mkdir (name : path) (perm : Z) : M (option error) :=
  f <- next_fault ;;
  match f with
  | Some e => ret (Some (PathError "mkdir" name e))
  | None =>
      λ w, match mkdir_fs (fs w) name with
           | inl e => (Some (PathError "mkdir" name e), w)
           | inr m => (None, set_fs m w)
           end
  end.

(** The name of [k] as an entry of directory [d], when it is one. *)
Definition entry_name (d k : path) : option string :=
  match last k with
  | Some n => if decide (k = d ++ [n]) then Some n else None
  | None => None
  end.

(** [file.Readdir(-1)], of which the package uses the names only: all
    the entries of the directory "in directory order", which is the
    order of the map here.  On a descriptor that is no directory the
    reading fails with ENOTDIR; the operation of the error is
    [readdirent]. *)
Definition file_Readdir (file : File) : M (error + list string) :=
  f <- next_fault ;;
  match f with
  | Some e => ret (inl (PathError "readdirent" (f_name file) e))
  | None =>
      λ w, match dir_status (fs w) (f_name file) with
           | Some e => (inl (PathError "readdirent" (f_name file) e), w)
           | None =>
               (inr (omap (entry_name (f_name file)) (map_to_list (fs w)).*1), w)
           end
  end.

(** [ioutil.ReadDir(dirname)] opens [dirname], reads its entries with
    [Readdir(-1)] and returns them "sorted by filename". *)
Definition ioutil_ReadDir (dirname : path) : M (error + list string) :=
  r <- os_Open dirname ;;
  match r with
  | inl err => ret (inl err)
  | inr f =>
      r <- file_Readdir f ;;
      match r with
      | inl err => ret (inl err)
      | inr list => ret (inr (merge_sort String.le list))
      end
  end.

(** [os.RemoveAll(path)]: "removes path and any children it contains ...
    If the path does not exist, RemoveAll returns nil". *)
Definition os_RemoveAll (name : path) : M (option error) :=
  f <- next_fault ;;
  match f with
  | Some e => ret (Some (PathError "unlinkat" name e))
  | None =>
      λ w, (None, set_fs (filter (λ kv, ¬ (name `prefix_of` kv.1)) (fs w)) w)
  end.

(** [path.Join(dir, name)] for a single clean component. *)
Definition path_Join (d : path) (n : string) : path := d ++ [n].

(** ** What the package imports from the rest of the repository

    [toykafka.Message] and the packages [index] and [filenamer] are not
    among the sources at hand.  Their data and operations follow the
    storage specification (its sections 3, 4.1 and 4.2); what the
    specification leaves open is a field of [Imports]. *)

(** Modelled from the spec: [SegmentMeta] of package [index], the record
    kept for one segment file: its name, the message numbers that live
    in it and the creation time of each. *)
Record SegmentMeta := mkSegmentMeta {
  fileName : string;
  messageNumbers : list Z;
  messageTimestamps : gmap Z Z
}.

(** Modelled from the spec: [TopicIndexEntry] of package [index]: the
    next message number of a topic and its segments in creation order. *)
Record TopicIndexEntry := mkTopicIndexEntry {
  nextMessageNumber : Z;
  segments : list SegmentMeta
}.

(** Modelled from the spec: [index.Index], "mapping topic →
    TopicIndexEntry". *)
Abbreviation Index := (gmap string TopicIndexEntry).

(** [storedMessage], the auxiliary type at the end of filestore.go. *)
Record storedMessage (Message : Type) := mkStoredMessage {
  message : Message;
  creationTime : Z;
  messageNumber : Z     (* int32 *)
}.
Arguments mkStoredMessage {Message}.

(** What is taken as given: the type of messages, and the choices that
    the specification names without fixing them. *)
Class Imports := {
  (* toykafka.Message *)
  Message : Type;
  (* the first message number of a topic, "some fixed origin (e.g., 0 or 1)" *)
  origin : Z;
  (* filenamer.NewMsgFilenameFor(topic, index) *)
  NewMsgFilenameFor : string → Index → string;
  (* encoding/gob on a storedMessage: the bytes left in the buffer *)
  gobEncode : storedMessage Message → list Byte.byte;
  (* the byte stream of an Index, and its reading back *)
  indexBytes : Index → list Byte.byte;
  indexParse : list Byte.byte → option Index
}.

(** The value of an int32, of an int64, after arithmetic on it.  The
    message number is an int32 in filestore.go ([msgNumber int32]). *)
Definition wrap32 (z : Z) : Z := (z + 2^31) mod 2^32 - 2^31.
Definition wrap64 (z : Z) : Z := (z + 2^63) mod 2^64 - 2^63.

(** A name that is one component of a path and nothing else: not empty,
    not [.] or [..], and without a separator.  The paths of [filenamer]
    below take the topic and the file name as one component each, which
    is what the file system makes of them when they are plain. *)
Definition plain_name (n : string) : bool :=
  negb (String.eqb n "") && negb (String.eqb n ".")
  && negb (String.eqb n "..")
  && forallb (λ c, negb (Ascii.eqb c "/"%char)) (String.list_ascii_of_string n).

Module filenamer.

(** Modelled from the spec: [filenamer.IndexFile], "<rootDir>/index". *)
Definition IndexFile (rootDir : path) : path := rootDir ++ ["index"].

(** Modelled from the spec: [filenamer.DirectoryForTopic],
    "<rootDir>/<topic>", the topic being one component of the path. *)
Definition DirectoryForTopic (topic : string) (rootDir : path) : path :=
  rootDir ++ [topic].

(** Modelled from the spec: [filenamer.MessageFilePath],
    "<rootDir>/<topic>/<segment-file-name>", topic and file name being
    one component each. *)
Definition MessageFilePath (fileName topic : string) (rootDir : path) : path :=
  rootDir ++ [topic; fileName].

End filenamer.

Module index.
Section index.
Context `{Imports}.

(** Modelled from the spec: [index.NewIndex], an index without topics. *)
Definition NewIndex : Index := ∅.

(** Modelled from the spec: [GetMessageFileListFor], "returns the
    mutable segment-list entry for a topic, creating it if absent".
    The entry is what the Go pointer refers to; the index is returned
    with the entry in place. *)
Definition GetMessageFileListFor (topic : string) (idx : Index)
  : TopicIndexEntry * Index :=
  match idx !! topic with
  | Some entry => (entry, idx)
  | None =>
      let entry := mkTopicIndexEntry origin [] in (entry, <[topic := entry]> idx)
  end.

(** Modelled from the spec: [NextMessageNumberFor], "returns the next
    number to assign and must be treated as reserved the instant it is
    handed out": the number leaves the index as it is returned. *)
Definition NextMessageNumberFor (topic : string) (idx : Index) : Z * Index :=
  let (entry, idx1) := GetMessageFileListFor topic idx in
  let n := nextMessageNumber entry in
  (n, <[topic := mkTopicIndexEntry (wrap32 (n + 1)) (segments entry)]> idx1).

(** Modelled from the spec: [CurrentMsgFileNameFor], "the filename of
    the topic's active (last) segment, or an empty/absent value if the
    topic has no segments yet". *)
Definition CurrentMsgFileNameFor (topic : string) (idx : Index) : string :=
  match idx !! topic with
  | Some entry =>
      match last (segments entry) with
      | Some seg => fileName seg
      | None => ""
      end
  | None => ""
  end.

(** Modelled from the spec: [RegisterNewFile] "appends a new SegmentMeta
    with no messages yet; becomes the new active segment". *)
Definition RegisterNewFile (name : string) (entry : TopicIndexEntry)
  : TopicIndexEntry :=
  mkTopicIndexEntry (nextMessageNumber entry)
    (segments entry ++ [mkSegmentMeta name [] ∅]).

(** Modelled from the spec: [RegisterNewMessage] "records that this
    message number now lives in this segment, with its creation
    timestamp". *)
Definition RegisterNewMessage (n t : Z) (seg : SegmentMeta) : SegmentMeta :=
  mkSegmentMeta (fileName seg) (messageNumbers seg ++ [n])
    (<[n := t]> (messageTimestamps seg)).

(** Modelled from the spec: the update of [msgFileList.Meta[name]]
    through the pointer the map holds: the segment of that name is
    replaced in the list. *)
Definition updateMeta (name : string) (f : SegmentMeta → SegmentMeta)
  (entry : TopicIndexEntry) : TopicIndexEntry :=
  mkTopicIndexEntry (nextMessageNumber entry)
    ((λ seg, if decide (fileName seg = name) then f seg else seg)
       <$> segments entry).

(** Modelled from the spec: [Decode] reads the byte stream and rebuilds
    the index; "decode of a missing or corrupt index file is a fatal
    error for that operation". *)
Definition Decode (file : File) : M (error + Index) :=
  r <- file_ReadAll file ;;
  match r with
  | inl err => ret (inl err)
  | inr bytes =>
      match indexParse bytes with
      | Some idx => ret (inr idx)
      | None => ret (inl (GobError "decode"))
      end
  end.

(** Modelled from the spec: [Encode] "serialize[s] the full Index to a
    byte stream": the bytes are written to the file it is given, and a
    failed write is its error. *)
Definition Encode (idx : Index) (file : File) : M (option error) :=
  r <- file_Write file (indexBytes idx) ;;
  ret (snd r).

End index.
End index.

(** ** Package filestore

    The functions below follow filestore.go function by function and
    statement by statement.  A Go function that returns a value and an
    error is a computation that returns the error or the value, except
    for [store] and the methods of the interface, whose two results are
    both kept. *)

Section filestore.
Context `{Imports}.

Definition maximumFileSize : Z := 1048576. (* 1 MiB *)

(** [FileStore] encapsulates the store. *)
Record FileStore := mkFileStore { rootDir : path }.

(** *** Helper functions *)

(** The loop of [deleteContents] over the directory entries. *)
Fixpoint removeEntries (s : FileStore) (dir : list string) : M (option error) :=
  match dir with
  | [] => ret None
  | entry :: rest =>
      let fullpath := path_Join (rootDir s) entry in
      err <- os_RemoveAll fullpath ;;
      match err with
      | Some err => ret (Some (Errorf "os.RemoveAll(): %v" err))
      | None => removeEntries s rest
      end
  end.

Definition deleteContents (s : FileStore) : M (option error) :=
  r <- ioutil_ReadDir (rootDir s) ;;
  match r with
  | inl err => ret (Some (Errorf "ioutil.ReadDir(): %v" err))
  | inr dir => removeEntries s dir
  end.

Definition retrieveIndexFromDisk (s : FileStore) : M (error + Index) :=
  let indexPath := filenamer.IndexFile (rootDir s) in
  r <- os_Open indexPath ;;
  match r with
  | inl err => ret (inl (Errorf "os.Open(): %v" err))
  | inr file =>
      r <- index.Decode file ;;
      match r with
      | inl err => ret (inl (Errorf "index.Decode(): %v" err))
      | inr idx => ret (inr idx)
      end
  end.

Definition saveIndex (s : FileStore) (idx : Index) : M (option error) :=
  let indexPath := filenamer.IndexFile (rootDir s) in
  r <- os_Open indexPath ;;
  match r with
  | inl err => ret (Some (Errorf "os.Open(): %v" err))
  | inr file =>
      err <- index.Encode idx file ;;
      match err with
      | Some err => ret (Some (Errorf "index.Encode(): %v" err))
      | None => ret None
      end
  end.

Definition makeMsgToStore (s : FileStore) (message : Message) (msgNumber : Z)
  : M (list Byte.byte) :=
  now <- time_Now ;;
  ret (gobEncode (mkStoredMessage message now msgNumber)).

Definition createTopicDirIfNotExists (s : FileStore) (topic : string)
  : M (option error) :=
  let dirPath := filenamer.DirectoryForTopic topic (rootDir s) in
  err <- os_Mkdir dirPath 511 (* 0777 *) ;;
  match err with
  | None => ret None
  | Some err =>
      if os_IsExist err then ret None
      else ret (Some (Errorf "os.Mkdir(): %v" err))
  end.

Definition fileHasInsufficentRoom (s : FileStore)
  (msgFileName topic : string) (msgSize : Z) : M (error + bool) :=
  let filepath := filenamer.MessageFilePath msgFileName topic (rootDir s) in
  r <- os_Open filepath ;;
  match r with
  | inl err => ret (inl (Errorf "os.Open(): %v" err))
  | inr file =>
      r <- file_Stat file ;;
      match r with
      | inl err => ret (inl (Errorf "file.Stat(): %v" err))
      | inr size =>
          let insufficient := maximumFileSize <? wrap64 (size + msgSize) in
          ret (inr insufficient)
      end
  end.

(** On the failure of [os.Create] the source has [return false, ...]
    for a result that is a string; the caller does not look at it. *)
Definition setupNewFileForTopic (s : FileStore) (topic : string) (idx : Index)
  : M (error + string * Index) :=
  let fileName := NewMsgFilenameFor topic idx in
  let filepath := filenamer.MessageFilePath fileName topic (rootDir s) in
  r <- os_Create filepath ;;
  match r with
  | inl err => ret (inl (Errorf "os.Create(): %v" err))
  | inr file =>
      let (msgFileList, idx1) := index.GetMessageFileListFor topic idx in
      ret (inr (fileName,
                <[topic := index.RegisterNewFile fileName msgFileList]> idx1))
  end.

(** The source names the path [filepath] and opens [filePath], and
    gives the result type as [err]: read as the one path and as [error]. *)
Definition saveAndRegisterMessage (s : FileStore)
  (msgFileName topic : string) (msgToStore : list Byte.byte)
  (msgNumber : Z) (idx : Index) : M (error + Index) :=
  let filepath := filenamer.MessageFilePath msgFileName topic (rootDir s) in
  r <- os_OpenFile filepath O_APPEND 438 (* 0666 *) ;;
  match r with
  | inl err => ret (inl (Errorf "os.OpenFile(): %v" err))
  | inr file =>
      r <- file_Write file msgToStore ;;
      match snd r with
      | Some err => ret (inl (Errorf "file.Write(): %v" err))
      | None =>
          creationTime <- time_Now ;;
          let (msgFileList, idx1) := index.GetMessageFileListFor topic idx in
          ret (inr (<[topic :=
                       index.updateMeta msgFileName
                         (index.RegisterNewMessage msgNumber creationTime)
                         msgFileList]> idx1))
      end
  end.

Definition store (s : FileStore) (topic : string) (message : Message)
  : M (Z * option error) :=
  r <- retrieveIndexFromDisk s ;;
  match r with
  | inl err => ret (-1, Some (Errorf "RetrieveIndexFromDisk(): %v" err))
  | inr idx =>
  err <- createTopicDirIfNotExists s topic ;;
  match err with
  | Some err => ret (-1, Some (Errorf "createTopicDirIfNotExists: %v" err))
  | None =>
  let (msgNumber, idx) := index.NextMessageNumberFor topic idx in
  msgToStore <- makeMsgToStore s message msgNumber ;;
  let msgSize := Z.of_nat (length msgToStore) in
  let msgFileName := index.CurrentMsgFileNameFor topic idx in
  r <- (if decide (msgFileName = "")
        then ret (inr true)
        else fileHasInsufficentRoom s msgFileName topic msgSize) ;;
  match r with
  | inl err => ret (-1, Some (Errorf "fileHasInsufficietRoom(): %v" err))
  | inr needNewFile =>
  r <- (if needNewFile : bool
        then setupNewFileForTopic s topic idx
        else ret (inr (msgFileName, idx))) ;;
  match r with
  | inl err => ret (-1, Some (Errorf "setupNewFileForTopic(): %v" err))
  | inr (msgFileName, idx) =>
  r <- saveAndRegisterMessage s msgFileName topic msgToStore msgNumber idx ;;
  match r with
  | inl err => ret (-1, Some (Errorf "saveAndRegisterMessage(): %v" err))
  | inr idx =>
  err <- saveIndex s idx ;;
  match err with
  | Some err => ret (-1, Some (Errorf "saveIndex(): %v" err))
  | None => ret (msgNumber, None)
  end end end end end end.

(** The steps of [store] that come before the message is written (its
    lines 88 to 117), on their own: either the pair [store] returns at
    once, or the file name, bytes, number and index it goes on to hand
    to [saveAndRegisterMessage]. *)
Definition storeUpToWrite (s : FileStore) (topic : string) (message : Message)
  : M (Z * option error + string * list Byte.byte * Z * Index) :=
  r <- retrieveIndexFromDisk s ;;
  match r with
  | inl err => ret (inl (-1, Some (Errorf "RetrieveIndexFromDisk(): %v" err)))
  | inr idx =>
  err <- createTopicDirIfNotExists s topic ;;
  match err with
  | Some err => ret (inl (-1, Some (Errorf "createTopicDirIfNotExists: %v" err)))
  | None =>
  let (msgNumber, idx) := index.NextMessageNumberFor topic idx in
  msgToStore <- makeMsgToStore s message msgNumber ;;
  let msgSize := Z.of_nat (length msgToStore) in
  let msgFileName := index.CurrentMsgFileNameFor topic idx in
  r <- (if decide (msgFileName = "")
        then ret (inr true)
        else fileHasInsufficentRoom s msgFileName topic msgSize) ;;
  match r with
  | inl err => ret (inl (-1, Some (Errorf "fileHasInsufficietRoom(): %v" err)))
  | inr needNewFile =>
  r <- (if needNewFile : bool
        then setupNewFileForTopic s topic idx
        else ret (inr (msgFileName, idx))) ;;
  match r with
  | inl err => ret (inl (-1, Some (Errorf "setupNewFileForTopic(): %v" err)))
  | inr (msgFileName, idx) => ret (inr (msgFileName, msgToStore, msgNumber, idx))
  end end end end.

(** The steps of [store] that come after the making of the topic's
    directory (its lines 96 to 127), on their own, from the index that
    was read. *)
Definition storeAfterDirectory (s : FileStore) (topic : string)
    (message : Message) (idx : Index) : M (Z * option error) :=
  let (msgNumber, idx) := index.NextMessageNumberFor topic idx in
  msgToStore <- makeMsgToStore s message msgNumber ;;
  let msgSize := Z.of_nat (length msgToStore) in
  let msgFileName := index.CurrentMsgFileNameFor topic idx in
  r <- (if decide (msgFileName = "")
        then ret (inr true)
        else fileHasInsufficentRoom s msgFileName topic msgSize) ;;
  match r with
  | inl err => ret (-1, Some (Errorf "fileHasInsufficietRoom(): %v" err))
  | inr needNewFile =>
  r <- (if needNewFile : bool
        then setupNewFileForTopic s topic idx
        else ret (inr (msgFileName, idx))) ;;
  match r with
  | inl err => ret (-1, Some (Errorf "setupNewFileForTopic(): %v" err))
  | inr (msgFileName, idx) =>
  r <- saveAndRegisterMessage s msgFileName topic msgToStore msgNumber idx ;;
  match r with
  | inl err => ret (-1, Some (Errorf "saveAndRegisterMessage(): %v" err))
  | inr idx =>
  err <- saveIndex s idx ;;
  match err with
  | Some err => ret (-1, Some (Errorf "saveIndex(): %v" err))
  | None => ret (msgNumber, None)
  end end end end.

(** The formats of the errors [store] builds, one for each step that
    can fail, in the order of the steps. *)
Definition store_error_formats : list string :=
  [ "RetrieveIndexFromDisk(): %v"; "createTopicDirIfNotExists: %v";
    "fileHasInsufficietRoom(): %v"; "setupNewFileForTopic(): %v";
    "saveAndRegisterMessage(): %v"; "saveIndex(): %v" ].

(** *** Methods to satisfy the BackingStore interface *)

(** [DeleteContents] removes all contents from the store. *)
Definition DeleteContents (s : FileStore) : M (option error) :=
  _ <- mutex_Lock ;;
  r <- deleteContents s ;;
  _ <- mutex_Unlock ;;     (* defer *)
  ret r.

Definition Store (s : FileStore) (topic : string) (message : Message)
  : M (Z * option error) :=
  _ <- mutex_Lock ;;
  r <- store s topic message ;;
  _ <- mutex_Unlock ;;     (* defer *)
  ret r.


(** The interface has [RemoveOldMessages] return the removed message
    numbers keyed on topic, [map[string][]int]; the method of
    [FileStore] returns [nRemoved int]. *)
Definition RemoveOldMessages (s : FileStore) (maxAge : Z)
  : M (Z * option error) :=
  ret (-1, None).

Definition Poll (s : FileStore) (topic : string) (readFrom : Z)
  : M (list Message * Z * option error) :=
  let foundMessages : list Message := [] in
  ret (foundMessages, 11, None).

End filestore.

(** The world right after [mutex.Lock()] and right after [mutex.Unlock()]. *)
Definition locked (w : World) : World := snd (mutex_Lock w).
Definition unlocked (w : World) : World := snd (mutex_Unlock w).

(** A computation that makes no call on the mutex. *)
Definition quiet {A} (c : M A) : Prop :=
  ∀ w a w1, c w = (a, w1) → mutex_log w1 = mutex_log w.

(** The size [file.Stat()] reports for what is at [p]. *)
Definition size_on_disk (m : gmap path node) (p : path) : option Z :=
  match m !! p with
  | Some (Reg c) => Some (Z.of_nat (length c))
  | Some Dir => Some 4096
  | None => match p with [] => Some 4096 | _ => None end
  end.

(** What [store] has settled when it reaches the write on file [f] with
    the bytes [b], the index it read being [idx1] by then and the world
    [w1]: the index file of [w] was read; and either [f] is the topic's
    active segment, which holds [b] within 1 MiB, or [f] has just been
    made and is empty, there being no active segment or no room in it. *)
Definition settled `{Imports} (s : FileStore) (topic : string) (w : World)
    (f : string) (b : list Byte.byte) (idx1 : Index) (w1 : World) : Prop :=
  ∃ c idx,
    fs w !! filenamer.IndexFile (rootDir s) = Some (Reg c)
    ∧ indexParse c = Some idx
    ∧ let idx0 := snd (index.NextMessageNumberFor topic idx) in
      let cur := index.CurrentMsgFileNameFor topic idx0 in
      let path_of := λ name, filenamer.MessageFilePath name topic (rootDir s) in
      (cur ≠ "" ∧ f = cur ∧ idx1 = idx0
       ∧ ∃ sz, size_on_disk (fs w1) (path_of cur) = Some sz
               ∧ wrap64 (sz + Z.of_nat (length b)) ≤ maximumFileSize)
      ∨ (f = NewMsgFilenameFor topic idx0
         ∧ fs w1 !! path_of f = Some (Reg [])
         ∧ (cur = ""
            ∨ ∃ m sz, fs w1 = <[path_of f := Reg []]> m
                      ∧ size_on_disk m (path_of cur) = Some sz
                      ∧ maximumFileSize < wrap64 (sz + Z.of_nat (length b)))).

(** ** A store to run the code on

    One choice for what the package imports, and a root directory
    [data] that holds an index file of one zero byte, which this choice
    reads as the index without topics. *)
Module Sample.

(** The bytes of a stored message are its time, number and text in
    print; of the indexes only the one without topics has a reading,
    which is all the runs below need. *)
#[export] Instance imports : Imports := {|
  Message := string;
  origin := 0;
  NewMsgFilenameFor := λ topic idx,
    match idx !! topic with
    | Some entry => "seg" +:+ pretty (length (segments entry))
    | None => "seg0"
    end;
  gobEncode := λ m,
    String.list_byte_of_string
      (pretty (creationTime _ m) +:+ ":" +:+ pretty (messageNumber _ m)
       +:+ ":" +:+ message _ m);
  indexBytes := λ idx, if decide (idx = ∅) then [Byte.x00] else [Byte.x01];
  indexParse := λ b, match b with [Byte.x00] => Some ∅ | _ => None end
|}.

Definition s0 : FileStore := mkFileStore ["data"].

Definition disk0 : gmap path node :=
  <[ ["data"; "index"] := Reg [Byte.x00] ]> (<[ ["data"] := Dir ]> ∅).

(** A store nothing has been put in yet. *)
Definition w0 : World := mkWorld disk0 [] [] [].

(** The same store with the directory of topic [orders] in place. *)
Definition w_orders : World :=
  mkWorld (<[ ["data"; "orders"] := Dir ]> disk0) [] [] [].

(** The same store, where the third system call to come (the [Mkdir],
    after the opening and the reading of the index file) is refused. *)
Definition w_refused : World :=
  mkWorld disk0 [None; None; Some Denied] [] [].

(** A root directory without an index file. *)
Definition w_bare : World := mkWorld (<[ ["data"] := Dir ]> ∅) [] [] [].

(** A root directory whose index file holds bytes that are no index. *)
Definition w_corrupt : World :=
  mkWorld (<[ ["data"; "index"] := Reg [Byte.x07; Byte.x07] ]>
             (<[ ["data"] := Dir ]> ∅)) [] [] [].

End Sample.

(** ** A store that holds messages

    Another choice for what the package imports: here an index file of
    one byte 01 reads as the index of a topic [orders] that has the
    messages 0 to 2 in one segment [seg0]. *)
Module Stocked.

#[export] Instance SegmentMeta_eq_dec : EqDecision SegmentMeta.
Proof. solve_decision. Defined.
#[export] Instance TopicIndexEntry_eq_dec : EqDecision TopicIndexEntry.
Proof. solve_decision. Defined.

Definition idx0 : Index :=
  {[ "orders" :=
       mkTopicIndexEntry 3
         [mkSegmentMeta "seg0" [0; 1; 2] {[ 0 := 10; 1 := 11; 2 := 12 ]}] ]}.

#[export] Instance imports : Imports := {|
  Message := string;
  origin := 0;
  NewMsgFilenameFor := λ topic idx,
    match idx !! topic with
    | Some entry => "seg" +:+ pretty (length (segments entry))
    | None => "seg0"
    end;
  gobEncode := λ m, String.list_byte_of_string (message _ m);
  indexBytes := λ idx, if decide (idx = idx0) then [Byte.x01] else [Byte.x00];
  indexParse := λ b, match b with [Byte.x01] => Some idx0 | _ => None end
|}.

Definition s0 : FileStore := mkFileStore ["data"].

(** The segment holds two bytes. *)
Definition w0 : World :=
  mkWorld (<[ ["data"; "orders"; "seg0"] := Reg [Byte.x68; Byte.x69] ]>
             (<[ ["data"; "orders"] := Dir ]>
                (<[ ["data"; "index"] := Reg [Byte.x01] ]>
                   (<[ ["data"] := Dir ]> ∅)))) [] [] [].

(** The index file alone: the segment it names is not on disk. *)
Definition w_lost : World :=
  mkWorld (<[ ["data"; "index"] := Reg [Byte.x01] ]>
             (<[ ["data"] := Dir ]> ∅)) [] [] [].

(** The same, with a regular file where the directory of topic [orders]
    should be. *)
Definition w_taken : World :=
  mkWorld (<[ ["data"; "orders"] := Reg [Byte.x68; Byte.x69] ]>
             (<[ ["data"; "index"] := Reg [Byte.x01] ]>
                (<[ ["data"] := Dir ]> ∅))) [] [] [].

End Stocked.

(** ** Stores that are out of order *)
Module Strays.

(** The store of [Sample] with a segment of topic [orders] on disk that
    the index does not list. *)
Definition w_stray : World :=
  mkWorld (<[ ["data"; "orders"; "seg0"] := Reg [Byte.x68; Byte.x69] ]>
             (<[ ["data"; "orders"] := Dir ]> Sample.disk0)) [] [] [].

(** A file system without the root directory of the store. *)
Definition w_nothing : World := mkWorld ∅ [] [] [].

(** A file system where [data] is a regular file. *)
Definition w_root_file : World :=
  mkWorld (<[ ["data"] := Reg [Byte.x68; Byte.x69] ]> ∅) [] [] [].

End Strays.

(** * Properties *)

(** ** How the system calls change the file system *)

Ltac run_step :=
  match goal with
  | H : context [let (_, _) := ?c in _] |- _ => destruct c eqn:?
  | H : context [match ?c with _ => _ end] |- _ => destruct c eqn:?
  | |- context [let (_, _) := ?c in _] => destruct c eqn:?
  | |- context [match ?c with _ => _ end] => destruct c eqn:?
  end.

Lemma next_fault_fs w f w1 : next_fault w = (f, w1) → fs w1 = fs w.
Proof. unfold next_fault. destruct (faults w); intros [= <- <-]; done. Qed.

Lemma os_OpenFile_readonly name flag perm w r w1 :
  writable flag = false → has_flag flag O_CREATE = false →
  os_OpenFile name flag perm w = (r, w1) →
  fs w1 = fs w ∧ ∀ file, r = inr file → file = mkFile name flag.
Proof.
  intros Hw Hc. unfold os_OpenFile, bind, ret.
  destruct (next_fault w) as [f w0] eqn:Hf. apply next_fault_fs in Hf.
  destruct f; [intros [= <- <-]; split; [done | discriminate] |].
  unfold open_fs. rewrite Hw, Hc, andb_false_r.
  destruct name; [| destruct (fs w0 !! _) as [[]|]];
    intros [= <- <-]; split; try done; intros ? [= <-]; done.
Qed.

Lemma file_Write_readonly file b w r w1 :
  writable (f_flag file) = false →
  file_Write file b w = (r, w1) →
  fs w1 = fs w ∧ ∃ e, r = (0, Some (PathError "write" (f_name file) e)).
Proof.
  intros Hw. unfold file_Write, bind, ret.
  destruct (next_fault w) as [f w0] eqn:Hf. apply next_fault_fs in Hf.
  rewrite Hw. destruct f; intros [= <- <-]; eauto.
Qed.

Lemma file_ReadAll_fs file w r w1 :
  file_ReadAll file w = (r, w1) →
  fs w1 = fs w ∧ ∀ c, r = inr c → fs w !! f_name file = Some (Reg c).
Proof.
  unfold file_ReadAll, bind, ret.
  destruct (next_fault w) as [f w0] eqn:Hf. apply next_fault_fs in Hf.
  destruct f; [intros [= <- <-]; split; [done | discriminate] |].
  destruct (_ =? _); [intros [= <- <-]; split; [done | discriminate] |].
  destruct (fs w0 !! f_name file) as [[]|] eqn:Hl;
    intros [= <- <-]; split; try done; try discriminate.
  intros ? [= <-]. by rewrite <- Hf.
Qed.

Lemma file_Stat_fs file w r w1 : file_Stat file w = (r, w1) → fs w1 = fs w.
Proof.
  unfold file_Stat, bind, ret.
  destruct (next_fault w) as [f w0] eqn:Hf. apply next_fault_fs in Hf.
  destruct f; [by intros [= <- <-] |].
  destruct (fs w0 !! f_name file) as [[]|]; [| | destruct (f_name file)];
    by intros [= <- <-].
Qed.

Lemma time_Now_fs w t w1 : time_Now w = (t, w1) → fs w1 = fs w.
Proof. unfold time_Now. destruct (clock w); by intros [= <- <-]. Qed.

Lemma os_Mkdir_fs name perm w r w1 :
  os_Mkdir name perm w = (r, w1) →
  fs w1 = fs w ∨ (r = None ∧ fs w !! name = None ∧ fs w1 = <[name := Dir]> (fs w)).
Proof.
  unfold os_Mkdir, bind, ret.
  destruct (next_fault w) as [f w0] eqn:Hf. apply next_fault_fs in Hf.
  destruct f; [intros [= <- <-]; by left |].
  unfold mkdir_fs. destruct name as [|n name]; [intros [= <- <-]; by left |].
  destruct (dir_status _ _); [intros [= <- <-]; by left |].
  destruct (fs w0 !! (n :: name)) eqn:Hl; intros [= <- <-]; [by left |].
  right. simpl. by rewrite <- Hf.
Qed.

Lemma os_Create_fs name w r w1 :
  os_Create name w = (r, w1) →
  (fs w1 = fs w ∧ ∃ e, r = inl e)
  ∨ (r = inr (mkFile name (Z.lor O_RDWR (Z.lor O_CREATE O_TRUNC)))
     ∧ fs w1 = <[name := Reg []]> (fs w)).
Proof.
  unfold os_Create, os_OpenFile, bind, ret.
  destruct (next_fault w) as [f w0] eqn:Hf. apply next_fault_fs in Hf.
  destruct f; [intros [= <- <-]; left; eauto |].
  unfold open_fs.
  destruct name as [|n name]; [intros [= <- <-]; left; eauto |].
  change (writable _) with true. change (has_flag _ O_TRUNC) with true.
  change (has_flag _ O_CREATE) with true. cbn [andb].
  destruct (fs w0 !! (n :: name)) as [[]|] eqn:Hl;
    [ intros [= <- <-]; left; eauto
    | intros [= <- <-]; right; simpl; by rewrite <- Hf
    | ].
  destruct (dir_status _ _); intros [= <- <-]; [left; eauto |].
  right. simpl. by rewrite <- Hf.
Qed.

(** ** How the helper functions change the file system *)

Section frames.
Context `{Imports}.

Lemma Decode_fs file w r w1 :
  index.Decode file w = (r, w1) →
  fs w1 = fs w ∧
  ∀ idx, r = inr idx →
    ∃ c, fs w !! f_name file = Some (Reg c) ∧ indexParse c = Some idx.
Proof.
  unfold index.Decode, bind, ret.
  destruct (file_ReadAll file w) as [r0 w0] eqn:Hr.
  apply file_ReadAll_fs in Hr as [Hfs Hc].
  destruct r0 as [e|c]; [intros [= <- <-]; split; [done | discriminate] |].
  destruct (indexParse c) eqn:Hp; intros [= <- <-]; split; try done;
    try discriminate.
  intros ? [= <-]. eauto.
Qed.

Lemma retrieveIndexFromDisk_fs s w r w1 :
  retrieveIndexFromDisk s w = (r, w1) →
  fs w1 = fs w ∧
  ∀ idx, r = inr idx →
    ∃ c, fs w !! filenamer.IndexFile (rootDir s) = Some (Reg c)
         ∧ indexParse c = Some idx.
Proof.
  unfold retrieveIndexFromDisk, bind, ret.
  destruct (os_Open _ w) as [r0 w0] eqn:Ho.
  unfold os_Open in Ho.
  apply os_OpenFile_readonly in Ho as [Hfs Hfile]; [| reflexivity..].
  destruct r0 as [e|file]; [intros [= <- <-]; split; [done | discriminate] |].
  rewrite (Hfile file eq_refl).
  destruct (index.Decode _ w0) as [r1 w2] eqn:Hd.
  apply Decode_fs in Hd as [Hfs2 Hc]. simpl in Hc.
  destruct r1 as [e|idx]; intros [= <- <-]; split; try congruence.
  intros ? [= <-]. rewrite <- Hfs. eauto.
Qed.

Lemma saveIndex_fails s idx w r w1 :
  saveIndex s idx w = (r, w1) → fs w1 = fs w ∧ ∃ e, r = Some e.
Proof.
  unfold saveIndex, bind, ret.
  destruct (os_Open _ w) as [r0 w0] eqn:Ho.
  unfold os_Open in Ho.
  apply os_OpenFile_readonly in Ho as [Hfs Hfile]; [| reflexivity..].
  destruct r0 as [e|file]; [intros [= <- <-]; eauto |].
  rewrite (Hfile file eq_refl).
  unfold index.Encode, bind, ret.
  destruct (file_Write _ _ w0) as [r1 w2] eqn:Hw.
  apply file_Write_readonly in Hw as [Hfs2 [e ->]]; [| done].
  simpl. intros [= <- <-]. split; [congruence | eauto].
Qed.

Lemma createTopicDirIfNotExists_fs s topic w r w1 :
  createTopicDirIfNotExists s topic w = (r, w1) →
  let d := filenamer.DirectoryForTopic topic (rootDir s) in
  fs w1 = fs w
  ∨ (r = None ∧ fs w !! d = None ∧ fs w1 = <[d := Dir]> (fs w)).
Proof.
  unfold createTopicDirIfNotExists, bind, ret.
  destruct (os_Mkdir _ _ w) as [r0 w0] eqn:Hm.
  apply os_Mkdir_fs in Hm.
  destruct r0 as [e|].
  - destruct Hm as [Hm | [? _]]; [| done].
    destruct (os_IsExist e); intros [= <- <-]; by left.
  - intros [= <- <-]. simpl. destruct Hm as [Hm | (_ & ? & ?)]; eauto.
Qed.

Lemma makeMsgToStore_fs s m n w b w1 :
  makeMsgToStore s m n w = (b, w1) → fs w1 = fs w.
Proof.
  unfold makeMsgToStore, bind, ret.
  destruct (time_Now w) as [t w0] eqn:Ht. apply time_Now_fs in Ht.
  by intros [= <- <-].
Qed.

Lemma fileHasInsufficentRoom_fs s f topic sz w r w1 :
  fileHasInsufficentRoom s f topic sz w = (r, w1) → fs w1 = fs w.
Proof.
  unfold fileHasInsufficentRoom, bind, ret.
  destruct (os_Open _ w) as [r0 w0] eqn:Ho.
  unfold os_Open in Ho.
  apply os_OpenFile_readonly in Ho as [Hfs _]; [| reflexivity..].
  destruct r0 as [e|file]; [by intros [= <- <-] |].
  destruct (file_Stat file w0) as [r1 w2] eqn:Hs. apply file_Stat_fs in Hs.
  destruct r1; intros [= <- <-]; congruence.
Qed.

Lemma setupNewFileForTopic_fs s topic idx w r w1 :
  setupNewFileForTopic s topic idx w = (r, w1) →
  let p := filenamer.MessageFilePath (NewMsgFilenameFor topic idx) topic (rootDir s) in
  (fs w1 = fs w ∧ ∃ e, r = inl e)
  ∨ (fs w1 = <[p := Reg []]> (fs w)
     ∧ ∃ idx1, r = inr (NewMsgFilenameFor topic idx, idx1)).
Proof.
  unfold setupNewFileForTopic, bind, ret.
  destruct (os_Create _ w) as [r0 w0] eqn:Hc.
  apply os_Create_fs in Hc as [[Hfs [e ->]] | [-> Hfs]].
  - intros [= <- <-]. left. eauto.
  - destruct (index.GetMessageFileListFor topic idx) as [l idx1].
    intros [= <- <-]. right. eauto.
Qed.

Lemma saveAndRegisterMessage_fails s f topic b n idx w r w1 :
  saveAndRegisterMessage s f topic b n idx w = (r, w1) →
  fs w1 = fs w ∧ ∃ e, r = inl e.
Proof.
  unfold saveAndRegisterMessage, bind, ret.
  destruct (os_OpenFile _ _ _ w) as [r0 w0] eqn:Ho.
  apply os_OpenFile_readonly in Ho as [Hfs Hfile]; [| reflexivity..].
  destruct r0 as [e|file]; [intros [= <- <-]; eauto |].
  rewrite (Hfile file eq_refl).
  destruct (file_Write _ _ w0) as [r1 w2] eqn:Hw.
  apply file_Write_readonly in Hw as [Hfs2 [e ->]]; [| reflexivity].
  simpl. intros [= <- <-]. split; [congruence | eauto].
Qed.

(** Every error [store] returns comes with the number -1 and names the
    step that failed. *)
Lemma store_error_cases s topic msg w n e w1 :
  store s topic msg w = ((n, Some e), w1) →
  n = -1 ∧ ∃ fmt cause, e = Errorf fmt cause ∧ fmt ∈ store_error_formats.
Proof.
  unfold store, bind, ret, store_error_formats. intros Hs.
  repeat run_step; simplify_eq; (split; [done|]); do 2 eexists;
    (split; [done|]); set_solver.
Qed.

Lemma store_fails s topic msg w : ∃ e, (store s topic msg w).1 = (-1, Some e).
Proof.
  unfold store, bind, ret.
  repeat run_step; simpl; eauto;
  repeat match goal with
  | H : saveAndRegisterMessage _ _ _ _ _ _ _ = _ |- _ =>
      apply saveAndRegisterMessage_fails in H as [_ [? ?]]
  end; discriminate.
Qed.

(** What a call of [store] can have done to the file system: nothing;
    or, the index file being there and read, made the topic's directory,
    and made or emptied the one segment file of the topic that
    [filenamer] names for the index as it is once the number is taken. *)
Lemma store_fs_named s topic msg w r w1 :
  store s topic msg w = (r, w1) →
  let d := filenamer.DirectoryForTopic topic (rootDir s) in
  fs w1 = fs w
  ∨ ∃ c idx,
      fs w !! filenamer.IndexFile (rootDir s) = Some (Reg c)
      ∧ indexParse c = Some idx
      ∧ ∃ m, (m = fs w ∨ (fs w !! d = None ∧ m = <[d := Dir]> (fs w))) ∧
             (fs w1 = m ∨
              fs w1 = <[filenamer.MessageFilePath
                          (NewMsgFilenameFor topic
                             (snd (index.NextMessageNumberFor topic idx)))
                          topic (rootDir s) := Reg []]> m).
Proof.
  unfold store, bind, ret. intros Hs.
  destruct (retrieveIndexFromDisk s w) as [r0 w0] eqn:Hr.
  apply retrieveIndexFromDisk_fs in Hr as [Hfs0 Hidx].
  destruct r0 as [e|idx]; [simplify_eq; by left |].
  destruct (Hidx idx eq_refl) as [c [Hc Hparse]]. clear Hidx.
  right. exists c, idx. split; [done |]. split; [done |].
  destruct (createTopicDirIfNotExists s topic w0) as [r1 w2] eqn:Hd.
  apply createTopicDirIfNotExists_fs in Hd. rewrite Hfs0 in Hd.
  exists (fs w2). split; [destruct Hd as [? | (_ & ? & ?)]; eauto |].
  clear Hd.
  destruct r1 as [e|]; [simplify_eq; by left |].
  destruct (index.NextMessageNumberFor topic idx) as [msgNumber idx1].
  destruct (makeMsgToStore s msg msgNumber w2) as [b w3] eqn:Hm.
  apply makeMsgToStore_fs in Hm.
  set (room := if decide (index.CurrentMsgFileNameFor topic idx1 = "")
               then _ else _) in Hs.
  destruct (room w3) as [r2 w4] eqn:Hroom.
  assert (fs w4 = fs w3) as Hfs4.
  { subst room. destruct (decide _); [by simplify_eq |].
    by eapply fileHasInsufficentRoom_fs. }
  clear Hroom room.
  destruct r2 as [e|needNewFile]; [simplify_eq; left; congruence |].
  set (setup := if needNewFile then _ else _) in Hs.
  destruct (setup w4) as [r3 w5] eqn:Hsetup.
  assert (fs w5 = fs w4 ∨
          fs w5 = <[filenamer.MessageFilePath (NewMsgFilenameFor topic idx1)
                      topic (rootDir s) := Reg []]> (fs w4))
    as Hfs5.
  { subst setup. destruct needNewFile; [| simplify_eq; by left].
    apply setupNewFileForTopic_fs in Hsetup as [[? _] | [? _]]; eauto. }
  clear Hsetup setup.
  assert (fs w1 = fs w5) as Hfs1.
  { destruct r3 as [e|[f idx2]]; [by simplify_eq |].
    destruct (saveAndRegisterMessage _ _ _ _ _ _ w5) as [r4 w6] eqn:Hsave.
    apply saveAndRegisterMessage_fails in Hsave as [Hfs6 [e ->]].
    by simplify_eq. }
  rewrite Hfs1. rewrite Hfs4, Hm in Hfs5. simpl.
  destruct Hfs5 as [-> | ->]; eauto.
Qed.

Lemma store_fs s topic msg w r w1 :
  store s topic msg w = (r, w1) →
  let d := filenamer.DirectoryForTopic topic (rootDir s) in
  fs w1 = fs w
  ∨ ((∃ c, fs w !! filenamer.IndexFile (rootDir s) = Some (Reg c)) ∧
     ∃ m, (m = fs w ∨ (fs w !! d = None ∧ m = <[d := Dir]> (fs w))) ∧
          (fs w1 = m ∨
           ∃ f, fs w1 = <[filenamer.MessageFilePath f topic (rootDir s) := Reg []]> m)).
Proof.
  intros Hs d. apply store_fs_named in Hs. fold d in Hs.
  destruct Hs as [? | (c & idx & Hc & _ & m & Hm & Hw1)]; [by left |].
  right. split; [eauto |]. exists m. split; [done |].
  destruct Hw1 as [? | ?]; eauto.
Qed.

Lemma segment_path_not_index f topic root :
  filenamer.MessageFilePath f topic root ≠ filenamer.IndexFile root.
Proof.
  unfold filenamer.MessageFilePath, filenamer.IndexFile.
  intros Heq%(f_equal length). rewrite !length_app in Heq. simpl in Heq. lia.
Qed.

(** [store] never touches the index file. *)
Lemma store_keeps_index_file s topic msg w r w1 :
  store s topic msg w = (r, w1) →
  fs w1 !! filenamer.IndexFile (rootDir s) = fs w !! filenamer.IndexFile (rootDir s).
Proof.
  intros Hs. apply store_fs in Hs.
  destruct Hs as [-> | [[c Hc] (m & Hm & Hw1)]]; [done |].
  assert (m !! filenamer.IndexFile (rootDir s)
          = fs w !! filenamer.IndexFile (rootDir s)) as <-.
  { destruct Hm as [-> | [Hn ->]]; [done |].
    rewrite lookup_insert_ne; [done |]. intros Heq. congruence. }
  destruct Hw1 as [-> | [f ->]]; [done |].
  rewrite lookup_insert_ne; [done |]. apply segment_path_not_index.
Qed.
End frames.

(** ** Computations that leave the mutex alone *)

Lemma quiet_ret {A} (a : A) : quiet (ret a).
Proof. by intros w a' w1 [= <- <-]. Qed.

Lemma quiet_bind {A B} (c : M A) (k : A → M B) :
  quiet c → (∀ a, quiet (k a)) → quiet (bind c k).
Proof.
  intros Hc Hk w b w2. unfold bind.
  destruct (c w) as [a w1] eqn:E. intros Hb.
  rewrite (Hk _ _ _ _ Hb). eauto.
Qed.

Lemma quiet_next_fault : quiet next_fault.
Proof. intros w a w1. unfold next_fault. destruct (faults w); by intros [= <- <-]. Qed.

Lemma quiet_time_Now : quiet time_Now.
Proof. intros w a w1. unfold time_Now. destruct (clock w); by intros [= <- <-]. Qed.

Create HintDb quiet.
#[export] Hint Resolve quiet_ret quiet_next_fault quiet_time_Now : quiet.

Ltac quiet_step :=
  first
  [ solve [auto with quiet]
  | apply quiet_bind; [| intros ?]
  | match goal with
    | |- quiet (match ?x with _ => _ end) => destruct x
    | |- quiet (let (_, _) := ?x in _) => destruct x
    | |- quiet (if ?x then _ else _) => destruct x
    end ].

Ltac quiet_world :=
  let w := fresh "w" in let a := fresh "a" in let w1 := fresh "w1" in
  intros w a w1; simpl;
  repeat match goal with
  | |- context [match ?x with _ => _ end] => destruct x
  end; by intros [= <- <-].

Lemma quiet_os_OpenFile name flag perm : quiet (os_OpenFile name flag perm).
Proof. unfold os_OpenFile. repeat quiet_step. quiet_world. Qed.
Lemma quiet_file_Write file b : quiet (file_Write file b).
Proof. unfold file_Write. repeat quiet_step. quiet_world. Qed.
Lemma quiet_file_ReadAll file : quiet (file_ReadAll file).
Proof. unfold file_ReadAll. repeat quiet_step. quiet_world. Qed.
Lemma quiet_file_Stat file : quiet (file_Stat file).
Proof. unfold file_Stat. repeat quiet_step. quiet_world. Qed.
Lemma quiet_os_Mkdir name perm : quiet (os_Mkdir name perm).
Proof. unfold os_Mkdir. repeat quiet_step. quiet_world. Qed.
Lemma quiet_file_Readdir file : quiet (file_Readdir file).
Proof. unfold file_Readdir. repeat quiet_step. quiet_world. Qed.
Lemma quiet_os_RemoveAll name : quiet (os_RemoveAll name).
Proof. unfold os_RemoveAll. repeat quiet_step. quiet_world. Qed.

#[export] Hint Resolve quiet_os_OpenFile quiet_file_Write quiet_file_ReadAll
  quiet_file_Stat quiet_os_Mkdir quiet_file_Readdir quiet_os_RemoveAll : quiet.

Lemma quiet_ioutil_ReadDir name : quiet (ioutil_ReadDir name).
Proof. unfold ioutil_ReadDir, os_Open. repeat quiet_step. Qed.

#[export] Hint Resolve quiet_ioutil_ReadDir : quiet.

Section quiet.
Context `{Imports}.

Lemma quiet_store s topic msg : quiet (store s topic msg).
Proof.
  unfold store, retrieveIndexFromDisk, createTopicDirIfNotExists,
    makeMsgToStore, fileHasInsufficentRoom, setupNewFileForTopic,
    saveAndRegisterMessage, saveIndex, index.Decode, index.Encode,
    os_Open, os_Create.
  repeat quiet_step.
Qed.

Lemma quiet_removeEntries s dir : quiet (removeEntries s dir).
Proof. induction dir; simpl; repeat quiet_step. Qed.

Lemma quiet_deleteContents s : quiet (deleteContents s).
Proof.
  unfold deleteContents. pose proof (quiet_removeEntries s).
  repeat quiet_step.
Qed.
End quiet.

(** ** Emptying the store *)

Lemma os_RemoveAll_fs name w w1 :
  os_RemoveAll name w = (None, w1) →
  fs w1 = filter (λ kv, ¬ (name `prefix_of` kv.1)) (fs w).
Proof.
  unfold os_RemoveAll, bind, ret.
  destruct (next_fault w) as [f w0] eqn:Hf. apply next_fault_fs in Hf.
  destruct f; [done |]. intros [= <-]. simpl. by rewrite Hf.
Qed.

Lemma os_RemoveAll_absent name w r w1 p :
  os_RemoveAll name w = (r, w1) → fs w !! p = None → fs w1 !! p = None.
Proof.
  unfold os_RemoveAll, bind, ret.
  destruct (next_fault w) as [f w0] eqn:Hf. apply next_fault_fs in Hf.
  destruct f; intros [= <- <-]; [by rewrite Hf |]. intros Hp.
  simpl. rewrite Hf. apply map_lookup_filter_None. by left.
Qed.

Lemma file_Readdir_fs file w r w1 :
  file_Readdir file w = (r, w1) → fs w1 = fs w.
Proof.
  unfold file_Readdir, bind, ret.
  destruct (next_fault w) as [f w0] eqn:Hf. apply next_fault_fs in Hf.
  destruct f; [by intros [= <- <-] |].
  destruct (dir_status _ _); by intros [= <- <-].
Qed.

Lemma file_Readdir_entries file w names w1 :
  file_Readdir file w = (inr names, w1) →
  dir_status (fs w) (f_name file) = None
  ∧ names = omap (entry_name (f_name file)) (map_to_list (fs w)).*1.
Proof.
  unfold file_Readdir, bind, ret.
  destruct (next_fault w) as [f w0] eqn:Hf. apply next_fault_fs in Hf.
  destruct f; [done |]. rewrite Hf.
  destruct (dir_status _ _); [done |]. by intros [= <- <-].
Qed.

(** What [ioutil.ReadDir] returns is what it read of a directory, in
    order; the file system is as it was, whatever it returns. *)
Lemma ioutil_ReadDir_inv d w r w1 :
  ioutil_ReadDir d w = (r, w1) →
  fs w1 = fs w
  ∧ ∀ names, r = inr names →
      dir_status (fs w) d = None
      ∧ names = merge_sort String.le
                  (omap (entry_name d) (map_to_list (fs w)).*1).
Proof.
  unfold ioutil_ReadDir, os_Open, bind, ret.
  destruct (os_OpenFile d O_RDONLY 0 w) as [r0 w0] eqn:Ho.
  apply os_OpenFile_readonly in Ho as [Hfs Hfile]; [| reflexivity..].
  destruct r0 as [e|file]; [intros [= <- <-]; split; [done | discriminate] |].
  rewrite (Hfile file eq_refl).
  destruct (file_Readdir _ w0) as [r1 w2] eqn:Hr.
  pose proof (file_Readdir_fs _ _ _ _ Hr) as Hfs2.
  destruct r1 as [e|names];
    (intros [= <- <-]; split; [congruence |]); [discriminate |].
  intros ? [= <-]. apply file_Readdir_entries in Hr as [Hd ->].
  simpl in Hd. rewrite Hfs in Hd |- *. done.
Qed.

Lemma ioutil_ReadDir_entries d w names w1 :
  ioutil_ReadDir d w = (inr names, w1) →
  fs w1 = fs w ∧ ∀ n, is_Some (fs w !! (d ++ [n])) → n ∈ names.
Proof.
  intros Hd. apply ioutil_ReadDir_inv in Hd as [Hfs Hn].
  destruct (Hn names eq_refl) as [_ ->]. split; [done |]. intros n [x Hx].
  rewrite merge_sort_Permutation. apply list_elem_of_omap.
  exists (d ++ [n]). split.
  - apply list_elem_of_fmap. exists (d ++ [n], x). split; [done |].
    by apply elem_of_map_to_list.
  - unfold entry_name. rewrite last_snoc. by rewrite decide_True.
Qed.

Section emptying.
Context `{Imports}.

Lemma removeEntries_absent s dir w r w1 p :
  removeEntries s dir w = (r, w1) → fs w !! p = None → fs w1 !! p = None.
Proof.
  revert w. induction dir as [|entry rest IH]; intros w; simpl.
  - by intros [= <- <-].
  - unfold bind, ret. destruct (os_RemoveAll _ w) as [e w0] eqn:Hr.
    intros Hs Hp. eapply os_RemoveAll_absent in Hr; [| done].
    destruct e; [by simplify_eq | eauto].
Qed.

Lemma removeEntries_removes s dir w w1 n :
  removeEntries s dir w = (None, w1) → n ∈ dir →
  fs w1 !! path_Join (rootDir s) n = None.
Proof.
  revert w. induction dir as [|entry rest IH]; intros w; simpl.
  - intros _ Hn. by apply elem_of_nil in Hn.
  - unfold bind, ret. destruct (os_RemoveAll _ w) as [e w0] eqn:Hr.
    destruct e; [done |]. intros Hs [-> | Hn]%elem_of_cons; [| eauto].
    eapply removeEntries_absent; [done |].
    rewrite (os_RemoveAll_fs _ _ _ Hr). apply map_lookup_filter_None.
    right. intros x _ Hnot. by apply Hnot.
Qed.

(** Once [deleteContents] has succeeded, no entry of the root directory
    is left, the index file no more than the rest. *)
Lemma deleteContents_removes s w w1 n :
  deleteContents s w = (None, w1) → fs w1 !! (rootDir s ++ [n]) = None.
Proof.
  unfold deleteContents, bind, ret.
  destruct (ioutil_ReadDir _ w) as [r w0] eqn:Hd.
  destruct r as [e|dir]; [done |].
  apply ioutil_ReadDir_entries in Hd as [Hfs Hin]. intros Hs.
  destruct (fs w !! (rootDir s ++ [n])) eqn:Hl.
  - eapply removeEntries_removes; [done |]. apply Hin. by rewrite Hl.
  - eapply removeEntries_absent; [done |]. by rewrite Hfs.
Qed.

Lemma retrieveIndexFromDisk_missing s w :
  fs w !! filenamer.IndexFile (rootDir s) = None →
  ∃ e, (retrieveIndexFromDisk s w).1 = inl (Errorf "os.Open(): %v" e).
Proof.
  intros Hl. unfold retrieveIndexFromDisk, os_Open, os_OpenFile, bind, ret.
  destruct (next_fault w) as [f w0] eqn:Hf. apply next_fault_fs in Hf.
  destruct f; [simpl; eauto |].
  unfold open_fs. rewrite Hf, Hl. unfold filenamer.IndexFile.
  destruct (rootDir s ++ ["index"]) eqn:E; [by destruct (rootDir s) |].
  simpl. eauto.
Qed.
End emptying.

(** ** The public methods and the mutex *)

Section methods.
Context `{Imports}.

Lemma store_split s topic msg w :
  store s topic msg w =
  (r <- storeUpToWrite s topic msg ;;
   match r with
   | inl res => ret res
   | inr (msgFileName, msgToStore, msgNumber, idx) =>
       r <- saveAndRegisterMessage s msgFileName topic msgToStore msgNumber idx ;;
       match r with
       | inl err => ret (-1, Some (Errorf "saveAndRegisterMessage(): %v" err))
       | inr idx =>
           err <- saveIndex s idx ;;
           match err with
           | Some err => ret (-1, Some (Errorf "saveIndex(): %v" err))
           | None => ret (msgNumber, None)
           end
       end
   end) w.
Proof.
  unfold store, storeUpToWrite, bind, ret.
  destruct (retrieveIndexFromDisk s w) as [[?|idx] w0]; [done |].
  destruct (createTopicDirIfNotExists s topic w0) as [[?|] w1]; [done |].
  destruct (index.NextMessageNumberFor topic idx) as [n idx1].
  destruct (makeMsgToStore s msg n w1) as [b w2].
  match goal with
  | |- context [let (_, _) := ?c w2 in _] =>
      destruct (c w2) as [[?|needNewFile] w3]; [done |]
  end.
  match goal with
  | |- context [let (_, _) := ?c w3 in _] =>
      destruct (c w3) as [[?|[f idx2]] w4]; done
  end.
Qed.

Lemma Store_run s topic msg w :
  Store s topic msg w =
  (fst (store s topic msg (locked w)), unlocked (snd (store s topic msg (locked w)))).
Proof.
  unfold Store, bind, ret, locked, unlocked. simpl.
  by destruct (store s topic msg _).
Qed.

Lemma DeleteContents_run s w :
  DeleteContents s w =
  (fst (deleteContents s (locked w)), unlocked (snd (deleteContents s (locked w)))).
Proof.
  unfold DeleteContents, bind, ret, locked, unlocked. simpl.
  by destruct (deleteContents s _).
Qed.

End methods.

(** ** Steps of [store] seen from its result *)

Section more.
Context `{Imports}.

Lemma store_index_error s topic msg w e :
  (retrieveIndexFromDisk s w).1 = inl e →
  (store s topic msg w).1 = (-1, Some (Errorf "RetrieveIndexFromDisk(): %v" e)).
Proof.
  unfold store, bind, ret. destruct (retrieveIndexFromDisk s w) as [r w0].
  simpl. by intros ->.
Qed.

(** Past the making of the topic's directory, the error of [store] is
    that of a later step. *)
Lemma store_past_directory s topic msg w idx w1 w2 :
  retrieveIndexFromDisk s w = (inr idx, w1) →
  createTopicDirIfNotExists s topic w1 = (None, w2) →
  ∃ fmt cause, (store s topic msg w).1 = (-1, Some (Errorf fmt cause))
               ∧ fmt ∈ drop 2 store_error_formats.
Proof.
  intros Hr Hd. destruct (store_fails s topic msg w) as [e He].
  revert He. unfold store, bind, ret, store_error_formats. rewrite Hr, Hd.
  intros He. repeat run_step; simpl in *; simplify_eq; do 2 eexists;
    (split; [done|]); set_solver.
Qed.

(** Past the making of the topic's directory, [store] is the rest of
    its steps, run from where the directory step has left the world. *)
Lemma store_after_directory s topic msg w idx w1 w2 :
  retrieveIndexFromDisk s w = (inr idx, w1) →
  createTopicDirIfNotExists s topic w1 = (None, w2) →
  store s topic msg w = storeAfterDirectory s topic msg idx w2.
Proof.
  intros Hr Hd. unfold store, storeAfterDirectory, bind, ret.
  by rewrite Hr, Hd.
Qed.

Lemma os_Mkdir_exists d perm w :
  dir_status (fs w) (parent d) = None → is_Some (fs w !! d) →
  (next_fault w).1 = None →
  ∃ e w1, os_Mkdir d perm w = (Some e, w1) ∧ os_IsExist e = true.
Proof.
  intros Hp [x Hx]. unfold os_Mkdir, bind, ret.
  destruct (next_fault w) as [f w0] eqn:Hf. simpl. intros ->.
  apply next_fault_fs in Hf. unfold mkdir_fs. rewrite Hf, Hp, Hx.
  destruct d; simpl; eauto.
Qed.
End more.

(** * The claims of the storage specification *)

(** The runs below are on the store of [Sample]. *)
#[local] Existing Instance Sample.imports.



(** C2. The specification has Poll return the stored messages numbered
    from readFrom on, with newReadFrom one past the last of them, or
    readFrom itself when there is none.  The code of Poll looks at
    nothing: for every topic and every readFrom it returns no message,
    the number 11 and no error, and leaves the world as it was. *)
Theorem Poll_returns_nothing_and_eleven `{Imports} s topic readFrom w :
  Poll s topic readFrom w = (([], 11, None), w).
Proof. reflexivity. Qed.

(** C3. The specification has RemoveOldMessages remove what is older
    than the cutoff and return the removed numbers by topic.  The code
    removes nothing: for every cutoff it returns the number -1 and no
    error, and every file of the store is as it was. *)
Theorem RemoveOldMessages_removes_nothing `{Imports} s maxAge w :
  RemoveOldMessages s maxAge w = ((-1, None), w).
Proof. reflexivity. Qed.

(** C4. The specification has Store append the message to a new segment
    file when there is no active segment or the active one would pass
    1 MiB.  The code sets the new file up and then fails to write to it
    (see C1): after a call of Store, every regular file of the store
    either holds what it held before or is empty, so nothing is ever
    appended to any segment. *)
Theorem Store_never_appends `{Imports} s topic msg w p c :
  fs (snd (Store s topic msg w)) !! p = Some (Reg c) →
  c = [] ∨ fs w !! p = Some (Reg c).
Proof.
  rewrite Store_run. simpl.
  destruct (store s topic msg (locked w)) as [r w1] eqn:Hs. simpl.
  apply store_fs in Hs. simpl in Hs.
  destruct Hs as [-> | [_ (m & Hm & Hw1)]]; [by right |].
  assert (m !! p = Some (Reg c) → fs w !! p = Some (Reg c)) as Hmp.
  { destruct Hm as [-> | [_ ->]]; [done |].
    intros [[_ ?] | [_ ?]]%lookup_insert_Some; done. }
  destruct Hw1 as [-> | [f ->]]; [by right; apply Hmp |].
  intros [[_ [= <-]] | [_ ?]]%lookup_insert_Some; [by left | by right; apply Hmp].
Qed.

Lemma Store_never_appends_witness :
  fs (snd (Store Sample.s0 "orders" "hello" Sample.w0))
    !! ["data"; "orders"; "seg0"] = Some (Reg [])
  ∧ (([] : list Byte.byte) = []
     ∨ fs Sample.w0 !! ["data"; "orders"; "seg0"] = Some (Reg [])).
Proof.
  assert (fs (snd (Store Sample.s0 "orders" "hello" Sample.w0))
            !! ["data"; "orders"; "seg0"] = Some (Reg [])) as Hl
    by (vm_compute; reflexivity).
  split; [exact Hl |].
  exact (Store_never_appends Sample.s0 "orders" "hello" Sample.w0 _ _ Hl).
Defined.

(** C5. If the append of the encoded message to the segment file fails,
    Store returns the error of that step with the number -1, and the
    index file on disk holds after the call what it held before it. *)
Theorem failed_append_leaves_index `{Imports} s topic msg w f b n idx w1 e w2 :
  storeUpToWrite s topic msg (locked w) = (inr (f, b, n, idx), w1) →
  saveAndRegisterMessage s f topic b n idx w1 = (inl e, w2) →
  Store s topic msg w
    = ((-1, Some (Errorf "saveAndRegisterMessage(): %v" e)), unlocked w2)
  ∧ fs (unlocked w2) !! filenamer.IndexFile (rootDir s)
    = fs w !! filenamer.IndexFile (rootDir s).
Proof.
  intros Hup Hsave.
  assert (store s topic msg (locked w)
          = ((-1, Some (Errorf "saveAndRegisterMessage(): %v" e)), w2)) as Hs.
  { rewrite store_split. unfold bind, ret. by rewrite Hup, Hsave. }
  split; [by rewrite Store_run, Hs |].
  by apply store_keeps_index_file in Hs.
Qed.

Lemma failed_append_leaves_index_witness :
  fst (Store Sample.s0 "orders" "hello" Sample.w0)
    = (-1, Some (Errorf "saveAndRegisterMessage(): %v"
                   (Errorf "file.Write(): %v"
                      (PathError "write" ["data"; "orders"; "seg0"] EBADF))))
  ∧ fs (snd (Store Sample.s0 "orders" "hello" Sample.w0)) !! ["data"; "index"]
    = Some (Reg [Byte.x00]).
Proof.
  pose (b := String.list_byte_of_string "0:0:hello").
  pose (idx := <["orders" := mkTopicIndexEntry 1 [mkSegmentMeta "seg0" [] ∅]]>
                 (∅ : Index)).
  pose (w1 := snd (storeUpToWrite Sample.s0 "orders" "hello" (locked Sample.w0))).
  pose (w2 := snd (saveAndRegisterMessage Sample.s0 "seg0" "orders" b 0 idx w1)).
  assert (storeUpToWrite Sample.s0 "orders" "hello" (locked Sample.w0)
          = (inr ("seg0", b, 0, idx), w1)) as Hup
    by (vm_compute; reflexivity).
  assert (saveAndRegisterMessage Sample.s0 "seg0" "orders" b 0 idx w1
          = (inl (Errorf "file.Write(): %v"
                    (PathError "write" ["data"; "orders"; "seg0"] EBADF)), w2))
    as Hsave by (vm_compute; reflexivity).
  destruct (failed_append_leaves_index (H := Sample.imports)
              Sample.s0 "orders" "hello" Sample.w0 _ _ _ _ _ _ _ Hup Hsave)
    as [HS Hidx].
  split; [exact (f_equal fst HS) |].
  exact (eq_trans (f_equal (λ r, fs (snd r) !! ["data"; "index"]) HS) Hidx).
Defined.

(** C6. If the index file cannot be opened, or what it holds cannot be
    decoded, Store returns the error of [retrieveIndexFromDisk] with the
    number -1 and the file system is what it was before the call: no
    directory has been made, no segment file made or written. *)
Theorem unavailable_index_mutates_nothing `{Imports} s topic msg w e w1 :
  retrieveIndexFromDisk s (locked w) = (inl e, w1) →
  Store s topic msg w
    = ((-1, Some (Errorf "RetrieveIndexFromDisk(): %v" e)), unlocked w1)
  ∧ fs (unlocked w1) = fs w.
Proof.
  intros Hr. split.
  - rewrite Store_run. unfold store, bind, ret. by rewrite Hr.
  - apply retrieveIndexFromDisk_fs in Hr as [Hfs _]. simpl. by rewrite Hfs.
Qed.

Lemma unavailable_index_mutates_nothing_witness :
  (* the index file is missing *)
  (fst (Store Sample.s0 "orders" "hello" Sample.w_bare)
     = (-1, Some (Errorf "RetrieveIndexFromDisk(): %v"
                    (Errorf "os.Open(): %v"
                       (PathError "open" ["data"; "index"] ENOENT))))
   ∧ fs (snd (Store Sample.s0 "orders" "hello" Sample.w_bare)) = fs Sample.w_bare)
  (* the index file holds what cannot be decoded *)
  ∧ (fst (Store Sample.s0 "orders" "hello" Sample.w_corrupt)
       = (-1, Some (Errorf "RetrieveIndexFromDisk(): %v"
                      (Errorf "index.Decode(): %v" (GobError "decode"))))
     ∧ fs (snd (Store Sample.s0 "orders" "hello" Sample.w_corrupt))
       = fs Sample.w_corrupt).
Proof.
  split.
  - pose (w1 := snd (retrieveIndexFromDisk Sample.s0 (locked Sample.w_bare))).
    assert (retrieveIndexFromDisk Sample.s0 (locked Sample.w_bare)
            = (inl (Errorf "os.Open(): %v"
                      (PathError "open" ["data"; "index"] ENOENT)), w1)) as Hr
      by (vm_compute; reflexivity).
    destruct (unavailable_index_mutates_nothing (H := Sample.imports)
                Sample.s0 "orders" "hello" _ _ _ Hr) as [HS Hfs].
    split; [exact (f_equal fst HS) |].
    exact (eq_trans (f_equal (λ r, fs (snd r)) HS) Hfs).
  - pose (w1 := snd (retrieveIndexFromDisk Sample.s0 (locked Sample.w_corrupt))).
    assert (retrieveIndexFromDisk Sample.s0 (locked Sample.w_corrupt)
            = (inl (Errorf "index.Decode(): %v" (GobError "decode")), w1)) as Hr
      by (vm_compute; reflexivity).
    destruct (unavailable_index_mutates_nothing (H := Sample.imports)
                Sample.s0 "orders" "hello" _ _ _ Hr) as [HS Hfs].
    split; [exact (f_equal fst HS) |].
    exact (eq_trans (f_equal (λ r, fs (snd r)) HS) Hfs).
Defined.

(** C7. The specification has a Store that follows DeleteContents
    return the first message number of the topic.  In the code
    [deleteContents] removes every entry of the root directory, the
    index file among them, and nothing makes it again: once
    DeleteContents has succeeded, Store fails on opening the index file
    and returns -1 with that error. *)
Theorem Store_after_DeleteContents_fails `{Imports} s topic msg w w1 :
  DeleteContents s w = (None, w1) →
  ∃ e, fst (Store s topic msg w1)
       = (-1, Some (Errorf "RetrieveIndexFromDisk(): %v"
                      (Errorf "os.Open(): %v" e))).
Proof.
  rewrite DeleteContents_run. intros [= Hd <-].
  assert (fs (locked (unlocked (deleteContents s (locked w)).2))
            !! filenamer.IndexFile (rootDir s) = None) as Hgone.
  { simpl. eapply deleteContents_removes.
    rewrite <- Hd. apply surjective_pairing. }
  apply retrieveIndexFromDisk_missing in Hgone as [e He].
  exists e. rewrite Store_run. simpl. by apply store_index_error.
Qed.

Lemma Store_after_DeleteContents_fails_witness :
  ∃ e, fst (Store Sample.s0 "orders" "hello" (snd (DeleteContents Sample.s0 Sample.w0)))
       = (-1, Some (Errorf "RetrieveIndexFromDisk(): %v"
                      (Errorf "os.Open(): %v" e))).
Proof.
  apply (Store_after_DeleteContents_fails (H := Sample.imports)
           Sample.s0 "orders" "hello" Sample.w0).
  vm_compute. reflexivity.
Defined.

(** C8. The specification has Store, RemoveOldMessages and Poll each
    hold the store-wide mutex for their whole duration.  In the code
    Store and DeleteContents do: each locks first and unlocks last, and
    makes no other call on the mutex.  Poll and RemoveOldMessages make
    no call on the mutex at all. *)
Theorem Poll_and_RemoveOldMessages_skip_the_mutex `{Imports}
    s topic msg readFrom maxAge w :
  mutex_log (snd (Store s topic msg w)) = mutex_log w ++ [Lock; Unlock]
  ∧ mutex_log (snd (DeleteContents s w)) = mutex_log w ++ [Lock; Unlock]
  ∧ mutex_log (snd (Poll s topic readFrom w)) = mutex_log w
  ∧ mutex_log (snd (RemoveOldMessages s maxAge w)) = mutex_log w.
Proof.
  split; [| split; [| done]].
  - rewrite Store_run. simpl.
    rewrite (quiet_store s topic msg (locked w) _ _ (surjective_pairing _)).
    simpl. by rewrite <- app_assoc.
  - rewrite DeleteContents_run. simpl.
    rewrite (quiet_deleteContents s (locked w) _ _ (surjective_pairing _)).
    simpl. by rewrite <- app_assoc.
Qed.

(** C9. Making the topic's directory is idempotent.  When the directory
    is there already, [os.Mkdir] says so and
    [createTopicDirIfNotExists] does not count it as an error: nothing
    changes on disk and Store goes on, which is to say that it does
    what the steps of [store] after this one do from the index that was
    read and the world as it is, and returns what they return, the error
    it ends in being that of one of them.  The same holds when the
    directory has just been made.  Any other failure of [os.Mkdir] makes
    Store stop with the number -1 and the error of this step, the file
    system being what it was before the call. *)
Theorem topic_directory_step `{Imports} s topic msg w idx w1 r w2 :
  let d := filenamer.DirectoryForTopic topic (rootDir s) in
  let rest := storeAfterDirectory s topic msg idx w2 in
  let goes_on :=
    Store s topic msg w = (fst rest, unlocked (snd rest))
    ∧ ∃ fmt cause, fst (Store s topic msg w) = (-1, Some (Errorf fmt cause))
                   ∧ fmt ∈ drop 2 store_error_formats in
  retrieveIndexFromDisk s (locked w) = (inr idx, w1) →
  os_Mkdir d 511 w1 = (r, w2) →
  (dir_status (fs w1) (rootDir s) = None → is_Some (fs w1 !! d) →
   fst (next_fault w1) = None → ∃ e, r = Some e ∧ os_IsExist e = true)
  ∧ match r with
    | None => createTopicDirIfNotExists s topic w1 = (None, w2) ∧ goes_on
    | Some e =>
        if os_IsExist e
        then createTopicDirIfNotExists s topic w1 = (None, w2)
             ∧ fs w2 = fs w1 ∧ goes_on
        else createTopicDirIfNotExists s topic w1
               = (Some (Errorf "os.Mkdir(): %v" e), w2)
             ∧ Store s topic msg w
               = ((-1, Some (Errorf "createTopicDirIfNotExists: %v"
                               (Errorf "os.Mkdir(): %v" e))), unlocked w2)
             ∧ fs (unlocked w2) = fs w
    end.
Proof.
  intros d rest goes_on Hr Hm.
  assert (createTopicDirIfNotExists s topic w1 = (None, w2) → goes_on)
    as Hgo.
  { intros Hc. unfold goes_on, rest. split.
    - rewrite Store_run. by rewrite (store_after_directory _ _ _ _ _ _ _ Hr Hc).
    - rewrite Store_run. simpl. eapply store_past_directory; done. }
  split.
  - intros Hroot Hd Hf.
    destruct (os_Mkdir_exists d 511 w1) as (e & w3 & He & Hex); [| done..|].
    + unfold d, filenamer.DirectoryForTopic, parent.
      by rewrite removelast_last.
    + rewrite Hm in He. injection He as -> _. eauto.
  - pose proof (os_Mkdir_fs _ _ _ _ _ Hm) as Hfs.
    assert (∀ e, r = Some e → fs w2 = fs w1) as Hsame
      by (intros e ->; by destruct Hfs as [? | [? _]]).
    unfold createTopicDirIfNotExists, bind, ret. fold d. rewrite Hm.
    destruct r as [e|]; [destruct (os_IsExist e) eqn:Hex |].
    + split; [done |]. split; [eauto |].
      apply Hgo. unfold createTopicDirIfNotExists, bind, ret. fold d.
      by rewrite Hm, Hex.
    + split; [done |]. split.
      * rewrite Store_run. unfold store, bind, ret. rewrite Hr.
        unfold createTopicDirIfNotExists, bind, ret. fold d.
        by rewrite Hm, Hex.
      * simpl. rewrite (Hsame e eq_refl).
        by apply retrieveIndexFromDisk_fs in Hr as [-> _].
    + split; [done |].
      apply Hgo. unfold createTopicDirIfNotExists, bind, ret. fold d.
      by rewrite Hm.
Qed.

Lemma topic_directory_step_witness :
  (* the directory of the topic is there already: nothing changes at this
     step, and Store goes on to the segment file and the write *)
  (∃ w2, createTopicDirIfNotExists Sample.s0 "orders"
           (snd (retrieveIndexFromDisk Sample.s0 (locked Sample.w_orders)))
         = (None, w2)
         ∧ fs w2 = fs Sample.w_orders
         ∧ Store Sample.s0 "orders" "hello" Sample.w_orders
           = (fst (storeAfterDirectory Sample.s0 "orders" "hello" ∅ w2),
              unlocked (snd (storeAfterDirectory Sample.s0 "orders" "hello" ∅ w2)))
         ∧ fst (Store Sample.s0 "orders" "hello" Sample.w_orders)
           = (-1, Some (Errorf "saveAndRegisterMessage(): %v"
                          (Errorf "file.Write(): %v"
                             (PathError "write" ["data"; "orders"; "seg0"]
                                EBADF))))
         ∧ fs (snd (Store Sample.s0 "orders" "hello" Sample.w_orders))
           = <[ ["data"; "orders"; "seg0"] := Reg [] ]> (fs Sample.w_orders))
  (* making the directory is refused *)
  ∧ fst (Store Sample.s0 "orders" "hello" Sample.w_refused)
    = (-1, Some (Errorf "createTopicDirIfNotExists: %v"
                   (Errorf "os.Mkdir(): %v"
                      (PathError "mkdir" ["data"; "orders"] EACCES)))).
Proof.
  split.
  - pose (w1 := snd (retrieveIndexFromDisk Sample.s0 (locked Sample.w_orders))).
    pose (w2 := snd (os_Mkdir ["data"; "orders"] 511 w1)).
    assert (retrieveIndexFromDisk Sample.s0 (locked Sample.w_orders)
            = (inr ∅, w1)) as Hr by (vm_compute; reflexivity).
    assert (os_Mkdir ["data"; "orders"] 511 w1
            = (Some (PathError "mkdir" ["data"; "orders"] EEXIST), w2)) as Hm
      by (vm_compute; reflexivity).
    assert (fst (storeAfterDirectory Sample.s0 "orders" "hello" ∅ w2)
            = (-1, Some (Errorf "saveAndRegisterMessage(): %v"
                           (Errorf "file.Write(): %v"
                              (PathError "write" ["data"; "orders"; "seg0"]
                                 EBADF))))) as Hrest
      by (vm_compute; reflexivity).
    assert (fs (unlocked (snd (storeAfterDirectory Sample.s0 "orders" "hello"
                                 ∅ w2)))
            = <[ ["data"; "orders"; "seg0"] := Reg [] ]> (fs Sample.w_orders))
      as Hdisk by (vm_compute; reflexivity).
    destruct (topic_directory_step (H := Sample.imports)
                Sample.s0 "orders" "hello" _ _ _ _ _ Hr Hm)
      as [_ (Hc & Hfs & HS & _)].
    exists w2. split; [exact Hc |]. split; [| split; [exact HS | split]].
    + exact (eq_trans Hfs (proj1 (retrieveIndexFromDisk_fs _ _ _ _ Hr))).
    + exact (eq_trans (f_equal fst HS) Hrest).
    + exact (eq_trans (f_equal (λ r, fs (snd r)) HS) Hdisk).
  - pose (w1 := snd (retrieveIndexFromDisk Sample.s0 (locked Sample.w_refused))).
    pose (w2 := snd (os_Mkdir ["data"; "orders"] 511 w1)).
    assert (retrieveIndexFromDisk Sample.s0 (locked Sample.w_refused)
            = (inr ∅, w1)) as Hr by (vm_compute; reflexivity).
    assert (os_Mkdir ["data"; "orders"] 511 w1
            = (Some (PathError "mkdir" ["data"; "orders"] EACCES), w2)) as Hm
      by (vm_compute; reflexivity).
    destruct (topic_directory_step (H := Sample.imports)
                Sample.s0 "orders" "hello" _ _ _ _ _ Hr Hm)
      as [_ (_ & HS & _)].
    exact (f_equal fst HS).
Defined.

(** C10. Whenever Store returns an error, the number it returns with it
    is -1, and the error is the one built for the step that failed: the
    loading of the index, the making of the directory, the check for
    room, the setting up of a new file, the writing of the message or
    the saving of the index. *)
Theorem Store_error_comes_with_minus_one `{Imports} s topic msg w n e w1 :
  Store s topic msg w = ((n, Some e), w1) →
  n = -1 ∧ ∃ fmt cause, e = Errorf fmt cause ∧ fmt ∈ store_error_formats.
Proof.
  rewrite Store_run. intros [= Hr _].
  eapply store_error_cases.
  rewrite (surjective_pairing (store s topic msg (locked w))).
  by rewrite Hr.
Qed.

Lemma Store_error_comes_with_minus_one_witness :
  fst (fst (Store Sample.s0 "orders" "hello" Sample.w_refused)) = -1.
Proof.
  refine (proj1 (Store_error_comes_with_minus_one (H := Sample.imports)
                   Sample.s0 "orders" "hello" Sample.w_refused _
                   (Errorf "createTopicDirIfNotExists: %v"
                      (Errorf "os.Mkdir(): %v"
                         (PathError "mkdir" ["data"; "orders"] EACCES)))
                   (snd (Store Sample.s0 "orders" "hello" Sample.w_refused)) _)).
  vm_compute. reflexivity.
Defined.

(** * Further properties of the package *)

(** ** Runs the environment does not disturb *)

Lemma next_fault_calm w : faults w = [] → next_fault w = (None, w).
Proof. unfold next_fault. by intros ->. Qed.

Lemma os_OpenFile_calm name flag perm w :
  faults w = [] →
  os_OpenFile name flag perm w =
  match open_fs (fs w) name flag with
  | inl e => (inl (PathError "open" name e), w)
  | inr m => (inr (mkFile name flag), set_fs m w)
  end.
Proof. intros Hf. unfold os_OpenFile, bind. by rewrite next_fault_calm. Qed.

Lemma os_Mkdir_calm name perm w :
  faults w = [] →
  os_Mkdir name perm w =
  match mkdir_fs (fs w) name with
  | inl e => (Some (PathError "mkdir" name e), w)
  | inr m => (None, set_fs m w)
  end.
Proof. intros Hf. unfold os_Mkdir, bind. by rewrite next_fault_calm. Qed.

Lemma set_fs_same w : set_fs (fs w) w = w.
Proof. by destruct w. Qed.

Lemma time_Now_faults w : faults (snd (time_Now w)) = faults w.
Proof. unfold time_Now. by destruct (clock w). Qed.

Lemma time_Now_value w : fst (time_Now w) = hd 0 (clock w).
Proof. unfold time_Now. by destruct (clock w). Qed.

Lemma last_path_ne (d : path) (n : string) : d ++ [n] ≠ [].
Proof. by destruct d. Qed.

Lemma open_fs_nonempty m (name : path) flag :
  name ≠ [] →
  open_fs m name flag =
    match m !! name with
    | Some Dir => if writable flag then inl EISDIR else inr m
    | Some (Reg _) =>
        if has_flag flag O_TRUNC && writable flag
        then inr (<[name := Reg []]> m) else inr m
    | None =>
        if has_flag flag O_CREATE then
          match dir_status m (parent name) with
          | Some e => inl e
          | None => inr (<[name := Reg []]> m)
          end
        else inl (lost m name)
    end.
Proof. by destruct name. Qed.

Lemma mkdir_fs_nonempty m (name : path) :
  name ≠ [] →
  mkdir_fs m name =
    match dir_status m (parent name) with
    | Some e => inl e
    | None =>
        match m !! name with
        | Some _ => inl EEXIST
        | None => inr (<[name := Dir]> m)
        end
    end.
Proof. by destruct name. Qed.

(** ** More on emptying the store *)

Lemma os_RemoveAll_keeps name w r w1 p x :
  os_RemoveAll name w = (r, w1) → fs w1 !! p = Some x → fs w !! p = Some x.
Proof.
  unfold os_RemoveAll, bind, ret.
  destruct (next_fault w) as [f w0] eqn:Hf. apply next_fault_fs in Hf.
  destruct f; intros [= <- <-]; [by rewrite Hf |].
  simpl. rewrite Hf. by intros [? _]%map_lookup_filter_Some.
Qed.

Lemma os_RemoveAll_outside name w r w1 p :
  os_RemoveAll name w = (r, w1) → ¬ (name `prefix_of` p) →
  fs w1 !! p = fs w !! p.
Proof.
  unfold os_RemoveAll, bind, ret.
  destruct (next_fault w) as [f w0] eqn:Hf. apply next_fault_fs in Hf.
  destruct f; intros [= <- <-]; [by rewrite Hf |]. intros Hp.
  simpl. rewrite Hf. destruct (fs w !! p) as [x|] eqn:Hl.
  - by apply map_lookup_filter_Some.
  - apply map_lookup_filter_None. by left.
Qed.

Section emptying_more.
Context `{Imports}.

Lemma removeEntries_keeps s dir w r w1 p x :
  removeEntries s dir w = (r, w1) → fs w1 !! p = Some x → fs w !! p = Some x.
Proof.
  revert w. induction dir as [|entry rest IH]; intros w; simpl.
  - by intros [= <- <-].
  - unfold bind, ret. destruct (os_RemoveAll _ w) as [e w0] eqn:Hr.
    intros Hs Hp. eapply os_RemoveAll_keeps; [done |].
    destruct e; [by simplify_eq | eauto].
Qed.

Lemma removeEntries_outside s dir w r w1 p :
  removeEntries s dir w = (r, w1) →
  (∀ n, ¬ (rootDir s ++ [n]) `prefix_of` p) →
  fs w1 !! p = fs w !! p.
Proof.
  revert w. induction dir as [|entry rest IH]; intros w; simpl.
  - by intros [= <- <-].
  - unfold bind, ret. destruct (os_RemoveAll _ w) as [e w0] eqn:Hr.
    intros Hs Hp.
    rewrite <- (os_RemoveAll_outside _ _ _ _ p Hr) by apply Hp.
    destruct e; [by simplify_eq | eauto].
Qed.

Lemma removeEntries_removes_below s dir w w1 n p :
  removeEntries s dir w = (None, w1) → n ∈ dir →
  (rootDir s ++ [n]) `prefix_of` p → fs w1 !! p = None.
Proof.
  revert w. induction dir as [|entry rest IH]; intros w; simpl.
  - intros _ Hn. by apply elem_of_nil in Hn.
  - unfold bind, ret. destruct (os_RemoveAll _ w) as [e w0] eqn:Hr.
    destruct e; [done |]. intros Hs [-> | Hn]%elem_of_cons Hp; [| eauto].
    eapply removeEntries_absent; [done |].
    rewrite (os_RemoveAll_fs _ _ _ Hr). apply map_lookup_filter_None.
    right. intros x _ Hnot. by apply Hnot.
Qed.

Lemma removeEntries_error s dir w e w1 :
  removeEntries s dir w = (Some e, w1) →
  ∃ cause, e = Errorf "os.RemoveAll(): %v" cause.
Proof.
  revert w. induction dir as [|entry rest IH]; intros w; simpl.
  - by intros [= <- <-].
  - unfold bind, ret. destruct (os_RemoveAll _ w) as [[e0|] w0] eqn:Hr.
    + intros [= <- <-]. eauto.
    + eauto.
Qed.

End emptying_more.

Lemma ioutil_ReadDir_is_dir d w names w1 :
  ioutil_ReadDir d w = (inr names, w1) → dir_status (fs w) d = None.
Proof. intros [_ Hn]%ioutil_ReadDir_inv. by destruct (Hn names eq_refl). Qed.

Lemma ioutil_ReadDir_fs d w r w1 : ioutil_ReadDir d w = (r, w1) → fs w1 = fs w.
Proof. by intros [? _]%ioutil_ReadDir_inv. Qed.

Lemma dir_status_None m p :
  dir_status m p = None ↔ p = [] ∨ m !! p = Some Dir.
Proof.
  unfold dir_status. destruct p; [by split; [left |] |].
  destruct (m !! _) as [[]|]; split; try done; try (by right);
    intros [? | ?]; done.
Qed.

Lemma lost_cases m p : lost m p = ENOENT ∨ lost m p = ENOTDIR.
Proof.
  unfold lost. induction (tail (rev p)) as [|x up IH]; [by left |].
  cbn [lost_below]. destruct (m !! _) as [[]|]; auto.
Qed.

Lemma dir_status_cases m p e :
  dir_status m p = Some e → e = ENOENT ∨ e = ENOTDIR.
Proof.
  unfold dir_status. destruct p; [done |].
  destruct (m !! _) as [[]|]; intros [= <-]; [by right |]. apply lost_cases.
Qed.

(** Opening a directory for reading finds it and changes nothing. *)
Lemma open_fs_dir m d :
  dir_status m d = None → open_fs m d O_RDONLY = inr m.
Proof.
  unfold dir_status, open_fs. destruct d; [done |].
  by destruct (m !! _) as [[]|].
Qed.

Lemma file_Readdir_calm file w :
  faults w = [] →
  file_Readdir file w =
  match dir_status (fs w) (f_name file) with
  | Some e => (inl (PathError "readdirent" (f_name file) e), w)
  | None => (inr (omap (entry_name (f_name file)) (map_to_list (fs w)).*1), w)
  end.
Proof. intros Hf. unfold file_Readdir, bind. by rewrite next_fault_calm. Qed.

Lemma entry_name_Some d k n : entry_name d k = Some n → k = d ++ [n].
Proof.
  unfold entry_name. destruct (last k); [| done].
  case_decide; [| done]. by intros [= <-].
Qed.

Lemma ioutil_ReadDir_empty d w :
  faults w = [] → dir_status (fs w) d = None →
  (∀ n, fs w !! (d ++ [n]) = None) →
  ioutil_ReadDir d w = (inr [], w).
Proof.
  intros Hf Hd Hnone. unfold ioutil_ReadDir, os_Open, bind, ret.
  rewrite os_OpenFile_calm, open_fs_dir, set_fs_same by done.
  rewrite file_Readdir_calm by done. simpl. rewrite Hd.
  assert (omap (entry_name d) (map_to_list (fs w)).*1 = []) as ->; [| done].
  apply elem_of_nil_inv. intros n (k & Hk & Hn)%list_elem_of_omap.
  apply entry_name_Some in Hn as ->.
  apply list_elem_of_fmap in Hk as ([k x] & Hk & Hkx). simpl in Hk.
  apply elem_of_map_to_list in Hkx. rewrite <- Hk, Hnone in Hkx. done.
Qed.

Section emptying_effect.
Context `{Imports}.

Lemma deleteContents_effect s w r w1 p :
  deleteContents s w = (r, w1) →
  (∀ x, fs w1 !! p = Some x → fs w !! p = Some x)
  ∧ ((∀ n, ¬ (rootDir s ++ [n]) `prefix_of` p) → fs w1 !! p = fs w !! p)
  ∧ (∀ e, r = Some e →
       ∃ cause, e = Errorf "ioutil.ReadDir(): %v" cause
                ∨ e = Errorf "os.RemoveAll(): %v" cause).
Proof.
  unfold deleteContents, bind, ret.
  destruct (ioutil_ReadDir _ w) as [[e|dir] w0] eqn:Hd;
    apply ioutil_ReadDir_fs in Hd.
  - intros [= <- <-]. rewrite Hd. split; [done |]. split; [done |].
    intros ? [= <-]. eauto.
  - intros Hrun. rewrite <- Hd. split; [| split].
    + intros x. by eapply removeEntries_keeps.
    + intros Hp. by eapply removeEntries_outside.
    + intros e ->. apply removeEntries_error in Hrun as [c ->]. eauto.
Qed.

Lemma root_not_below_itself (root : path) n : ¬ (root ++ [n]) `prefix_of` root.
Proof. intros Hp%prefix_length. rewrite length_app in Hp. simpl in Hp. lia. Qed.

Lemma deleteContents_root_is_dir s w w1 :
  deleteContents s w = (None, w1) → dir_status (fs w1) (rootDir s) = None.
Proof.
  intros Hd.
  assert (dir_status (fs w) (rootDir s) = None) as Hw.
  { revert Hd. unfold deleteContents, bind, ret.
    destruct (ioutil_ReadDir _ w) as [[e|dir] w0] eqn:Hrd; [done |].
    intros _. by apply ioutil_ReadDir_is_dir in Hrd. }
  destruct (deleteContents_effect _ _ _ _ (rootDir s) Hd) as (_ & Hsame & _).
  apply dir_status_None. apply dir_status_None in Hw as [? | Hw]; [by left |].
  right. rewrite Hsame; [done |].
  intros n. apply root_not_below_itself.
Qed.
End emptying_effect.

(** X1. Once DeleteContents has succeeded, every entry the root
    directory had is gone, and so is everything below it. *)
Theorem DeleteContents_removes_entries_and_below `{Imports} s w w1 n rest :
  DeleteContents s w = (None, w1) →
  is_Some (fs w !! (rootDir s ++ [n])) →
  fs w1 !! (rootDir s ++ n :: rest) = None.
Proof.
  rewrite DeleteContents_run. intros [= Hd <-] Hn. simpl.
  revert Hd. unfold deleteContents, bind, ret.
  destruct (ioutil_ReadDir _ (locked w)) as [[e|dir] w0] eqn:Hr; [done |].
  apply ioutil_ReadDir_entries in Hr as [Hfs Hin]. intros Hd.
  eapply removeEntries_removes_below.
  - rewrite <- Hd. apply surjective_pairing.
  - by apply Hin.
  - exists rest. by rewrite <- app_assoc.
Qed.

Lemma DeleteContents_removes_entries_and_below_witness :
  fs (snd (DeleteContents Sample.s0 Strays.w_stray))
    !! ["data"; "orders"; "seg0"] = None.
Proof.
  apply (DeleteContents_removes_entries_and_below (H := Sample.imports)
           Sample.s0 Strays.w_stray _ "orders" ["seg0"]).
  - vm_compute. reflexivity.
  - vm_compute. eauto.
Defined.

(** X2. Whatever DeleteContents returns, it has made or altered nothing:
    a path that is there afterwards was there before with the same
    content; the root directory itself and whatever is not below it are
    as they were; and an error it returns is that of reading the
    directory or that of removing an entry. *)
Theorem DeleteContents_only_removes_below_root `{Imports} s w r w1 p :
  DeleteContents s w = (r, w1) →
  (∀ x, fs w1 !! p = Some x → fs w !! p = Some x)
  ∧ ((∀ n, ¬ (rootDir s ++ [n]) `prefix_of` p) → fs w1 !! p = fs w !! p)
  ∧ (∀ e, r = Some e →
       ∃ cause, e = Errorf "ioutil.ReadDir(): %v" cause
                ∨ e = Errorf "os.RemoveAll(): %v" cause).
Proof.
  rewrite DeleteContents_run. intros [= Hr <-].
  apply (deleteContents_effect s (locked w) r
           (snd (deleteContents s (locked w))) p).
  rewrite <- Hr. apply surjective_pairing.
Qed.

Lemma DeleteContents_only_removes_below_root_witness :
  fs (snd (DeleteContents Sample.s0 Strays.w_stray)) !! ["data"]
  = fs Strays.w_stray !! ["data"].
Proof.
  refine (proj1 (proj2 (DeleteContents_only_removes_below_root
                          (H := Sample.imports) Sample.s0 Strays.w_stray
                          _ _ ["data"] (surjective_pairing _))) _).
  intros n Hp%prefix_length. simpl in Hp. lia.
Defined.

(** What [ioutil.ReadDir] makes of a path that is no directory: a path
    that is missing fails to open; a regular file opens, and it is the
    reading of its entries that fails. *)
Lemma ioutil_ReadDir_not_dir d w e0 :
  dir_status (fs w) d = Some e0 →
  ∃ op e w1,
    ioutil_ReadDir d w = (inl (PathError op d e), w1)
    ∧ fs w1 = fs w
    ∧ (fs w !! d = None → op = "open")
    ∧ (faults w = [] → e = e0)
    ∧ (faults w = [] → is_Some (fs w !! d) → op = "readdirent").
Proof.
  intros Hd. unfold ioutil_ReadDir, os_Open, os_OpenFile, bind, ret.
  destruct (next_fault w) as [f w0] eqn:Hf.
  assert (faults w = [] → f = None ∧ w0 = w) as Hcalm.
  { intros Hc. rewrite next_fault_calm in Hf by done. by simplify_eq. }
  pose proof (next_fault_fs _ _ _ Hf) as Hfs.
  destruct f as [e1|].
  { exists "open", e1, w0. repeat split; try done;
      intros Hc; by destruct (Hcalm Hc). }
  unfold open_fs. rewrite Hfs. revert Hd. unfold dir_status.
  destruct d as [|n d]; [done |].
  destruct (fs w !! (n :: d)) as [[|c]|] eqn:Hl; [done | |].
  - intros [= <-]. change (writable O_RDONLY) with false.
    rewrite andb_false_r. unfold file_Readdir, bind, ret. cbn [f_name].
    destruct (next_fault (set_fs (fs w) w0)) as [f2 w2] eqn:Hf2.
    assert (faults w = [] → f2 = None) as Hcalm2.
    { intros Hc. destruct (Hcalm Hc) as [_ ->]. rewrite set_fs_same in Hf2.
      rewrite next_fault_calm in Hf2 by done. by simplify_eq. }
    pose proof (next_fault_fs _ _ _ Hf2) as Hfs2. simpl in Hfs2.
    destruct f2 as [e2|].
    + exists "readdirent", e2, w2. repeat split; try done;
        intros Hc; by specialize (Hcalm2 Hc).
    + unfold dir_status. rewrite Hfs2, Hl.
      exists "readdirent", ENOTDIR, w2. by repeat split.
  - intros [= <-]. exists "open", (lost (fs w) (n :: d)), w0.
    by repeat split.
Qed.

(** X3. When the root directory is missing, or is not a directory,
    DeleteContents returns the error of reading it and changes nothing.
    A root that is missing fails to open.  A root that is a regular
    file opens, and the reading of its entries fails; with nothing else
    in the way the operation of the error is then [readdirent] and its
    cause that the path is not a directory. *)
Theorem DeleteContents_without_root `{Imports} s w e0 :
  dir_status (fs w) (rootDir s) = Some e0 →
  (∃ op e,
     fst (DeleteContents s w)
     = Some (Errorf "ioutil.ReadDir(): %v" (PathError op (rootDir s) e))
     ∧ (fs w !! rootDir s = None → op = "open")
     ∧ (faults w = [] → e = e0)
     ∧ (faults w = [] → is_Some (fs w !! rootDir s) →
        op = "readdirent" ∧ e = ENOTDIR))
  ∧ fs (snd (DeleteContents s w)) = fs w.
Proof.
  intros Hd. rewrite DeleteContents_run. simpl.
  destruct (ioutil_ReadDir_not_dir (rootDir s) (locked w) e0 Hd)
    as (op & e & w1 & Hr & Hfs & Hopen & He & Hop).
  unfold deleteContents, bind, ret. rewrite Hr. simpl. split; [| done].
  exists op, e. split; [done |]. split; [done |]. split; [done |].
  intros Hc Hsome. split; [by apply Hop |]. rewrite (He Hc).
  revert Hd. unfold dir_status. destruct Hsome as [x Hx]. rewrite Hx.
  destruct (rootDir s); [done |]. destruct x; [done |]. by intros [= <-].
Qed.

Lemma DeleteContents_without_root_witness :
  (* there is no root directory *)
  (fst (DeleteContents Sample.s0 Strays.w_nothing)
   = Some (Errorf "ioutil.ReadDir(): %v" (PathError "open" ["data"] ENOENT))
   ∧ fs (snd (DeleteContents Sample.s0 Strays.w_nothing)) = fs Strays.w_nothing)
  (* the root is a regular file *)
  ∧ (fst (DeleteContents Sample.s0 Strays.w_root_file)
     = Some (Errorf "ioutil.ReadDir(): %v"
               (PathError "readdirent" ["data"] ENOTDIR))
     ∧ fs (snd (DeleteContents Sample.s0 Strays.w_root_file))
       = fs Strays.w_root_file).
Proof.
  split.
  - assert (dir_status (fs Strays.w_nothing) (rootDir Sample.s0) = Some ENOENT)
      as Hd by (vm_compute; reflexivity).
    assert (fs Strays.w_nothing !! rootDir Sample.s0 = None) as Hl
      by (vm_compute; reflexivity).
    destruct (DeleteContents_without_root (H := Sample.imports)
                Sample.s0 Strays.w_nothing ENOENT Hd)
      as [(op & e & Hr & Hopen & He & _) Hfs].
    split; [| exact Hfs].
    rewrite (Hopen Hl), (He eq_refl) in Hr. exact Hr.
  - assert (dir_status (fs Strays.w_root_file) (rootDir Sample.s0)
            = Some ENOTDIR) as Hd by (vm_compute; reflexivity).
    assert (is_Some (fs Strays.w_root_file !! rootDir Sample.s0)) as Hl
      by (vm_compute; eauto).
    destruct (DeleteContents_without_root (H := Sample.imports)
                Sample.s0 Strays.w_root_file ENOTDIR Hd)
      as [(op & e & Hr & _ & _ & Hop) Hfs].
    split; [| exact Hfs].
    destruct (Hop eq_refl Hl) as [-> ->]. exact Hr.
Defined.

(** X4. DeleteContents on a store it has just emptied, with nothing in
    its way, succeeds again and changes nothing. *)
Theorem DeleteContents_twice `{Imports} s w w1 :
  DeleteContents s w = (None, w1) → faults w1 = [] →
  ∃ w2, DeleteContents s w1 = (None, w2) ∧ fs w2 = fs w1.
Proof.
  rewrite DeleteContents_run. intros [= Hr <-] Hcalm.
  pose proof (surjective_pairing (deleteContents s (locked w))) as Hd.
  rewrite Hr in Hd.
  set (w1 := unlocked (deleteContents s (locked w)).2) in *.
  exists (unlocked (locked w1)). split; [| done].
  rewrite DeleteContents_run. unfold deleteContents at 1 2, bind, ret.
  rewrite (ioutil_ReadDir_empty (rootDir s) (locked w1)); [done | done | |].
  - exact (deleteContents_root_is_dir s (locked w) _ Hd).
  - intros n. exact (deleteContents_removes s (locked w) _ n Hd).
Qed.

Lemma DeleteContents_twice_witness :
  ∃ w2, DeleteContents Sample.s0 (snd (DeleteContents Sample.s0 Strays.w_stray))
        = (None, w2)
        ∧ fs w2 = fs (snd (DeleteContents Sample.s0 Strays.w_stray)).
Proof.
  apply (DeleteContents_twice (H := Sample.imports) Sample.s0 Strays.w_stray).
  - vm_compute. reflexivity.
  - vm_compute. reflexivity.
Defined.

(** ** The segment [store] settles on *)

Lemma file_Stat_size file w sz w1 :
  file_Stat file w = (inr sz, w1) → size_on_disk (fs w) (f_name file) = Some sz.
Proof.
  unfold file_Stat, size_on_disk, bind, ret.
  destruct (next_fault w) as [f w0] eqn:Hf. apply next_fault_fs in Hf.
  destruct f; [done |]. rewrite Hf.
  destruct (fs w !! f_name file) as [[]|]; [| | destruct (f_name file)];
    by intros [= <- <-].
Qed.

Section settling.
Context `{Imports}.

Lemma fileHasInsufficentRoom_decision s f topic msgSize w b w1 :
  fileHasInsufficentRoom s f topic msgSize w = (inr b, w1) →
  ∃ sz, size_on_disk (fs w) (filenamer.MessageFilePath f topic (rootDir s)) = Some sz
        ∧ b = (maximumFileSize <? wrap64 (sz + msgSize)).
Proof.
  unfold fileHasInsufficentRoom, bind, ret.
  destruct (os_Open _ w) as [r0 w0] eqn:Ho. unfold os_Open in Ho.
  apply os_OpenFile_readonly in Ho as [Hfs Hfile]; [| reflexivity..].
  destruct r0 as [e|file]; [done |]. rewrite (Hfile file eq_refl).
  destruct (file_Stat _ w0) as [[e|sz] w2] eqn:Hs; [done |].
  apply file_Stat_size in Hs. simpl in Hs. rewrite Hfs in Hs.
  intros [= <- <-]. eauto.
Qed.

(** What [store] has settled when it reaches the write. *)
Lemma storeUpToWrite_inv s topic msg w f b n idx1 w1 :
  storeUpToWrite s topic msg w = (inr (f, b, n, idx1), w1) →
  ∃ c idx t,
    fs w !! filenamer.IndexFile (rootDir s) = Some (Reg c)
    ∧ indexParse c = Some idx
    ∧ n = fst (index.NextMessageNumberFor topic idx)
    ∧ b = gobEncode (mkStoredMessage msg t n)
    ∧ let idx0 := snd (index.NextMessageNumberFor topic idx) in
      let cur := index.CurrentMsgFileNameFor topic idx0 in
      let path_of := λ name, filenamer.MessageFilePath name topic (rootDir s) in
      (cur ≠ "" ∧ f = cur ∧ idx1 = idx0
       ∧ ∃ sz, size_on_disk (fs w1) (path_of cur) = Some sz
               ∧ wrap64 (sz + Z.of_nat (length b)) ≤ maximumFileSize)
      ∨ (f = NewMsgFilenameFor topic idx0
         ∧ fs w1 !! path_of f = Some (Reg [])
         ∧ (cur = ""
            ∨ ∃ m sz, fs w1 = <[path_of f := Reg []]> m
                      ∧ size_on_disk m (path_of cur) = Some sz
                      ∧ maximumFileSize < wrap64 (sz + Z.of_nat (length b)))).
Proof.
  unfold storeUpToWrite, bind, ret. intros Hs.
  destruct (retrieveIndexFromDisk s w) as [[e|idx] w0] eqn:Hr; [done |].
  apply retrieveIndexFromDisk_fs in Hr as [Hfs0 Hidx].
  destruct (Hidx idx eq_refl) as (c & Hc & Hparse). clear Hidx.
  destruct (createTopicDirIfNotExists s topic w0) as [[e|] w2] eqn:Hd; [done |].
  destruct (index.NextMessageNumberFor topic idx) as [n0 idx0] eqn:Hn.
  unfold makeMsgToStore, bind, ret in Hs.
  destruct (time_Now w2) as [t w3] eqn:Ht. apply time_Now_fs in Ht.
  exists c, idx, t. rewrite Hn. simpl.
  set (b0 := gobEncode (mkStoredMessage msg t n0)) in *.
  destruct (decide (index.CurrentMsgFileNameFor topic idx0 = "")) as [Hcur|Hcur].
  - (* no active segment *)
    destruct (setupNewFileForTopic s topic idx0 w3) as [r3 w5] eqn:Hsetup.
    apply setupNewFileForTopic_fs in Hsetup as [[_ [e ->]] | [Hfs5 [idx2 ->]]];
      [done |].
    injection Hs as <- <- <- <- <-.
    do 4 (split; [done |]). right. split; [done |].
    rewrite Hfs5, lookup_insert_eq. eauto.
  - destruct (fileHasInsufficentRoom s _ topic _ w3) as [[e|needNewFile] w4] eqn:Hroom;
      [done |].
    pose proof (fileHasInsufficentRoom_fs _ _ _ _ _ _ _ Hroom) as Hfs4.
    apply fileHasInsufficentRoom_decision in Hroom as (sz & Hsz & ->).
    destruct (maximumFileSize <? _) eqn:Hcmp.
    + destruct (setupNewFileForTopic s topic idx0 w4) as [r3 w5] eqn:Hsetup.
      apply setupNewFileForTopic_fs in Hsetup as [[_ [e ->]] | [Hfs5 [idx2 ->]]];
        [done |].
      injection Hs as <- <- <- <- <-.
      do 4 (split; [done |]). right. split; [done |].
      rewrite Hfs5, lookup_insert_eq. split; [done |]. right.
      exists (fs w4), sz. rewrite Hfs4. split; [done |]. split; [done |].
      by apply Z.ltb_lt.
    + injection Hs as <- <- <- <- <-.
      do 4 (split; [done |]). left. do 3 (split; [done |]).
      exists sz. rewrite Hfs4. split; [done |]. by apply Z.ltb_ge.
Qed.
End settling.

(** X5. Store leaves alone whatever is not its topic's.  For a topic
    that is a plain name, and a segment name from [filenamer] that is
    one: a path that differs after the call is the topic's directory,
    which was not there and now is, or a segment file in that directory,
    which is now empty.  Nothing is removed, and no other topic is
    touched. *)
Theorem Store_changes_only_its_topic `{Imports} s topic msg w p :
  plain_name topic = true →
  (∀ c idx,
     fs w !! filenamer.IndexFile (rootDir s) = Some (Reg c) →
     indexParse c = Some idx →
     plain_name (NewMsgFilenameFor topic
                   (snd (index.NextMessageNumberFor topic idx))) = true) →
  fs (snd (Store s topic msg w)) !! p ≠ fs w !! p →
  (p = filenamer.DirectoryForTopic topic (rootDir s)
   ∧ fs w !! p = None
   ∧ fs (snd (Store s topic msg w)) !! p = Some Dir)
  ∨ (∃ f, plain_name f = true
          ∧ p = filenamer.MessageFilePath f topic (rootDir s)
          ∧ fs (snd (Store s topic msg w)) !! p = Some (Reg [])).
Proof.
  intros _ Hplain. rewrite Store_run. simpl.
  destruct (store s topic msg (locked w)) as [r w1] eqn:Hs. simpl.
  apply store_fs_named in Hs. simpl in Hs.
  destruct Hs as [-> | (c & idx & Hc & Hparse & m & Hm & Hw1)]; [done |].
  specialize (Hplain c idx Hc Hparse).
  assert (m !! p ≠ fs w !! p →
          p = filenamer.DirectoryForTopic topic (rootDir s)
          ∧ fs w !! p = None ∧ m !! p = Some Dir) as Hmp.
  { destruct Hm as [-> | [Hn ->]]; [done |].
    destruct (decide (p = filenamer.DirectoryForTopic topic (rootDir s)))
      as [-> | Hne].
    - by rewrite lookup_insert_eq.
    - by rewrite lookup_insert_ne. }
  destruct Hw1 as [-> | ->]; [intros Hp; left; by apply Hmp |].
  set (f := NewMsgFilenameFor topic _) in *.
  destruct (decide (p = filenamer.MessageFilePath f topic (rootDir s)))
    as [-> | Hne].
  - rewrite lookup_insert_eq. right. eauto.
  - rewrite lookup_insert_ne by done. intros Hp. left. by apply Hmp.
Qed.

Lemma Store_changes_only_its_topic_witness :
  (["data"; "orders"; "seg0"] = filenamer.DirectoryForTopic "orders" (rootDir Sample.s0)
   ∧ fs Sample.w0 !! ["data"; "orders"; "seg0"] = None
   ∧ fs (snd (Store Sample.s0 "orders" "hello" Sample.w0))
       !! ["data"; "orders"; "seg0"] = Some Dir)
  ∨ (∃ f, plain_name f = true
          ∧ ["data"; "orders"; "seg0"]
            = filenamer.MessageFilePath f "orders" (rootDir Sample.s0)
          ∧ fs (snd (Store Sample.s0 "orders" "hello" Sample.w0))
              !! ["data"; "orders"; "seg0"] = Some (Reg [])).
Proof.
  assert (fs Sample.w0 !! filenamer.IndexFile (rootDir Sample.s0)
          = Some (Reg [Byte.x00])) as Hindex by (vm_compute; reflexivity).
  apply (Store_changes_only_its_topic (H := Sample.imports)
           Sample.s0 "orders" "hello" Sample.w0).
  - reflexivity.
  - intros c idx Hc Hparse. rewrite Hindex in Hc. injection Hc as <-.
    injection Hparse as <-. vm_compute. reflexivity.
  - vm_compute. discriminate.
Defined.

Lemma Store_index_file `{Imports} s topic msg w :
  fs (snd (Store s topic msg w)) !! filenamer.IndexFile (rootDir s)
  = fs w !! filenamer.IndexFile (rootDir s).
Proof.
  rewrite Store_run. simpl.
  exact (store_keeps_index_file s topic msg (locked w) _ _ (surjective_pairing _)).
Qed.

(** X6. No call of Store changes the index file: whatever number it
    reserves, and whether it fails early or late, the bytes of the index
    on disk are afterwards what they were. *)
Theorem Store_never_changes_the_index_file `{Imports} s topic msg w :
  fs (snd (Store s topic msg w)) !! filenamer.IndexFile (rootDir s)
  = fs w !! filenamer.IndexFile (rootDir s).
Proof. apply Store_index_file. Qed.

(** X7. The number Store reserves is the one the index file on disk gives
    for the topic, and a call of Store leaves that file as it is: a Store
    that follows another on the same topic reaches the write with the
    same message number. *)
Theorem Store_again_has_the_same_number `{Imports}
    s topic msg msg' w f b n idx1 w1 f' b' n' idx1' w1' :
  storeUpToWrite s topic msg (locked w) = (inr (f, b, n, idx1), w1) →
  storeUpToWrite s topic msg' (locked (snd (Store s topic msg w)))
    = (inr (f', b', n', idx1'), w1') →
  n' = n.
Proof.
  intros (c & idx & _ & Hc & Hp & -> & _)%storeUpToWrite_inv
         (c' & idx' & _ & Hc' & Hp' & -> & _)%storeUpToWrite_inv.
  simpl in Hc, Hc'.
  rewrite Store_index_file in Hc'.
  congruence.
Qed.

Lemma Store_again_has_the_same_number_witness : (0 : Z) = 0.
Proof.
  pose (b := String.list_byte_of_string "0:0:hello").
  pose (idx := <["orders" := mkTopicIndexEntry 1 [mkSegmentMeta "seg0" [] ∅]]>
                 (∅ : Index)).
  pose (w' := snd (Store Sample.s0 "orders" "hello" Sample.w0)).
  refine (Store_again_has_the_same_number (H := Sample.imports)
            Sample.s0 "orders" "hello" "hello" Sample.w0
            "seg0" b 0 idx
            (snd (storeUpToWrite Sample.s0 "orders" "hello" (locked Sample.w0)))
            "seg0" b 0 idx
            (snd (storeUpToWrite Sample.s0 "orders" "hello" (locked w')))
            _ _);
    vm_compute; reflexivity.
Defined.

(** X8. When [store] reaches the write, the file it has settled on is
    either the topic's active segment, whose size and the encoded
    message together do not pass 1 MiB, or a file it has just made, which
    is empty, the topic having had no active segment or one in which the
    message had no room. *)
Theorem store_settles_on_a_segment_with_room `{Imports}
    s topic msg w f b n idx1 w1 :
  storeUpToWrite s topic msg w = (inr (f, b, n, idx1), w1) →
  settled s topic w f b idx1 w1.
Proof.
  intros (c & idx & t & Hc & Hp & _ & _ & Hcases)%storeUpToWrite_inv.
  exists c, idx. eauto.
Qed.

Lemma store_settles_on_a_segment_with_room_witness :
  settled (H := Stocked.imports) Stocked.s0 "orders" Stocked.w0 "seg0"
    (String.list_byte_of_string "hello")
    (snd (index.NextMessageNumberFor (H := Stocked.imports) "orders" Stocked.idx0))
    (snd (storeUpToWrite (H := Stocked.imports)
            Stocked.s0 "orders" "hello" Stocked.w0)).
Proof.
  refine (store_settles_on_a_segment_with_room (H := Stocked.imports)
            Stocked.s0 "orders" "hello" Stocked.w0 _ _ 3 _ _ _).
  vm_compute. reflexivity.
Defined.

(** ** The helper functions when the environment does not interfere *)

Lemma file_ReadAll_calm file w c :
  faults w = [] → Z.land (f_flag file) 3 ≠ O_WRONLY →
  fs w !! f_name file = Some (Reg c) →
  file_ReadAll file w = (inr c, w).
Proof.
  intros Hf Hflag Hc. unfold file_ReadAll, bind.
  rewrite next_fault_calm by done.
  destruct (Z.eqb_spec (Z.land (f_flag file) 3) O_WRONLY); [done |].
  by rewrite Hc.
Qed.

Lemma file_Stat_calm file w c :
  faults w = [] → fs w !! f_name file = Some (Reg c) →
  file_Stat file w = (inr (Z.of_nat (length c)), w).
Proof.
  intros Hf Hc. unfold file_Stat, bind.
  rewrite next_fault_calm by done. by rewrite Hc.
Qed.

Lemma file_Write_refused name b w :
  faults w = [] →
  file_Write (mkFile name O_APPEND) b w
  = ((0, Some (PathError "write" name EBADF)), w).
Proof. intros Hf. unfold file_Write, bind. by rewrite next_fault_calm. Qed.

Lemma parent_snoc (d : path) n : parent (d ++ [n]) = d.
Proof. unfold parent. apply removelast_last. Qed.

Section calm.
Context `{Imports}.

Lemma retrieveIndexFromDisk_calm s w c :
  faults w = [] →
  fs w !! filenamer.IndexFile (rootDir s) = Some (Reg c) →
  retrieveIndexFromDisk s w =
  (match indexParse c with
   | Some idx => inr idx
   | None => inl (Errorf "index.Decode(): %v" (GobError "decode"))
   end, w).
Proof.
  intros Hf Hc. unfold retrieveIndexFromDisk, os_Open, bind, ret.
  rewrite os_OpenFile_calm by done.
  rewrite open_fs_nonempty by apply last_path_ne.
  rewrite Hc. change (has_flag O_RDONLY O_TRUNC && _) with false.
  cbn iota. rewrite set_fs_same.
  unfold index.Decode, bind, ret.
  rewrite (file_ReadAll_calm _ w c); [| done | done | done].
  by destruct (indexParse c).
Qed.

Lemma createTopicDirIfNotExists_calm s topic w :
  faults w = [] → dir_status (fs w) (rootDir s) = None →
  let d := filenamer.DirectoryForTopic topic (rootDir s) in
  createTopicDirIfNotExists s topic w =
  (None, match fs w !! d with
         | Some _ => w
         | None => set_fs (<[d := Dir]> (fs w)) w
         end).
Proof.
  intros Hf Hroot d. unfold createTopicDirIfNotExists, bind, ret. fold d.
  rewrite os_Mkdir_calm by done.
  rewrite mkdir_fs_nonempty by apply last_path_ne.
  unfold d, filenamer.DirectoryForTopic. rewrite parent_snoc, Hroot.
  by destruct (fs w !! _).
Qed.

Lemma setupNewFileForTopic_calm s topic idx w :
  faults w = [] →
  let name := NewMsgFilenameFor topic idx in
  let p := filenamer.MessageFilePath name topic (rootDir s) in
  fs w !! filenamer.DirectoryForTopic topic (rootDir s) = Some Dir →
  fs w !! p ≠ Some Dir →
  ∃ idx1, setupNewFileForTopic s topic idx w
          = (inr (name, idx1), set_fs (<[p := Reg []]> (fs w)) w).
Proof.
  intros Hf name p Hd Hp. unfold setupNewFileForTopic, os_Create, bind, ret.
  fold name. fold p. rewrite os_OpenFile_calm by done.
  assert (p ≠ []) as Hne.
  { unfold p, filenamer.MessageFilePath. by destruct (rootDir s). }
  rewrite open_fs_nonempty by done.
  assert (dir_status (fs w) (parent p) = None) as Hpar.
  { unfold p, filenamer.MessageFilePath.
    replace (rootDir s ++ [topic; name]) with ((rootDir s ++ [topic]) ++ [name])
      by (by rewrite <- app_assoc).
    rewrite parent_snoc. unfold dir_status.
    destruct (rootDir s ++ [topic]) eqn:E; [done |].
    rewrite <- E. unfold filenamer.DirectoryForTopic in Hd. by rewrite Hd. }
  change (writable _) with true. change (has_flag _ O_TRUNC) with true.
  change (has_flag _ O_CREATE) with true. cbn [andb]. rewrite Hpar.
  destruct (index.GetMessageFileListFor topic idx) as [l idx1].
  destruct (fs w !! p) as [[]|]; [done | eauto..].
Qed.

Lemma saveAndRegisterMessage_calm s f topic b n idx w c :
  faults w = [] →
  let p := filenamer.MessageFilePath f topic (rootDir s) in
  fs w !! p = Some (Reg c) →
  saveAndRegisterMessage s f topic b n idx w
  = (inl (Errorf "file.Write(): %v" (PathError "write" p EBADF)), w).
Proof.
  intros Hf p Hc. unfold saveAndRegisterMessage, bind, ret. fold p.
  rewrite os_OpenFile_calm by done.
  assert (p ≠ []) as Hne.
  { unfold p, filenamer.MessageFilePath. by destruct (rootDir s). }
  rewrite open_fs_nonempty by done. rewrite Hc.
  change (has_flag O_APPEND O_TRUNC && _) with false. cbn iota.
  rewrite set_fs_same. by rewrite file_Write_refused.
Qed.
End calm.

Section calm_room.
Context `{Imports}.

Lemma fileHasInsufficentRoom_calm s f topic msgSize w c :
  faults w = [] →
  fs w !! filenamer.MessageFilePath f topic (rootDir s) = Some (Reg c) →
  fileHasInsufficentRoom s f topic msgSize w
  = (inr (maximumFileSize <? wrap64 (Z.of_nat (length c) + msgSize)), w).
Proof.
  intros Hf Hc. unfold fileHasInsufficentRoom, os_Open, bind, ret.
  rewrite os_OpenFile_calm by done.
  assert (filenamer.MessageFilePath f topic (rootDir s) ≠ []) as Hne.
  { unfold filenamer.MessageFilePath. by destruct (rootDir s). }
  rewrite open_fs_nonempty by done. rewrite Hc.
  change (has_flag O_RDONLY O_TRUNC && _) with false. cbn iota.
  rewrite set_fs_same. by rewrite (file_Stat_calm _ w c).
Qed.

End calm_room.

(** X9. Store for a topic that has no segment yet, on a store in order
    (the root a directory, the index file readable, nothing in the way
    at the topic's paths), with no failure from outside and with plain
    names for the topic and for the new segment: the topic's directory
    is made, a new segment file is made empty, the write to it is
    refused, and Store returns -1 with that error.  The directory and
    the empty segment, which no index lists, stay behind. *)
Theorem Store_on_a_topic_without_segment `{Imports} s topic msg w c idx :
  let idx0 := snd (index.NextMessageNumberFor topic idx) in
  let d := filenamer.DirectoryForTopic topic (rootDir s) in
  let p := filenamer.MessageFilePath (NewMsgFilenameFor topic idx0) topic
             (rootDir s) in
  plain_name topic = true →
  plain_name (NewMsgFilenameFor topic idx0) = true →
  faults w = [] →
  dir_status (fs w) (rootDir s) = None →
  fs w !! filenamer.IndexFile (rootDir s) = Some (Reg c) →
  indexParse c = Some idx →
  index.CurrentMsgFileNameFor topic idx0 = "" →
  fs w !! d = None ∨ fs w !! d = Some Dir →
  fs w !! p ≠ Some Dir →
  fst (Store s topic msg w)
    = (-1, Some (Errorf "saveAndRegisterMessage(): %v"
                   (Errorf "file.Write(): %v" (PathError "write" p EBADF))))
  ∧ fs (snd (Store s topic msg w)) = <[p := Reg []]> (<[d := Dir]> (fs w)).
Proof.
  intros idx0 d p _ _ Hf Hroot Hc Hparse Hcur Hd Hp.
  rewrite Store_run. simpl.
  assert (faults (locked w) = []) as Hf0 by done.
  assert (fs (locked w) = fs w) as Hfs0 by done.
  generalize dependent (locked w). intros w0 Hf0 Hfs0.
  unfold store, bind, ret.
  rewrite (retrieveIndexFromDisk_calm s w0 c), Hparse by (by rewrite ?Hfs0).
  rewrite createTopicDirIfNotExists_calm by (by rewrite ?Hfs0). fold d.
  set (w2 := match fs w0 !! d with Some _ => w0 | None => _ end).
  assert (faults w2 = []) as Hf2 by (unfold w2; by destruct (fs w0 !! d)).
  assert (fs w2 = <[d := Dir]> (fs w)) as Hfs2.
  { unfold w2. rewrite Hfs0. destruct Hd as [-> | Hd]; [done |].
    rewrite Hd. by rewrite insert_id. }
  clearbody w2.
  unfold idx0 in *. clear idx0.
  destruct (index.NextMessageNumberFor topic idx) as [n idx0]. simpl in *.
  unfold makeMsgToStore, bind, ret.
  pose proof (time_Now_faults w2) as Hf3.
  destruct (time_Now w2) as [t w3] eqn:Ht. apply time_Now_fs in Ht.
  simpl in Hf3. rewrite Hf2 in Hf3. rewrite Hfs2 in Ht.
  rewrite decide_True by done.
  assert (p ≠ d) as Hpd.
  { unfold p, d, filenamer.MessageFilePath, filenamer.DirectoryForTopic.
    intros Heq%(f_equal length). rewrite !length_app in Heq. simpl in Heq. lia. }
  destruct (setupNewFileForTopic_calm s topic idx0 w3) as [idx1 ->].
  - done.
  - fold d. by rewrite Ht, lookup_insert_eq.
  - fold p. by rewrite Ht, lookup_insert_ne.
  - fold p.
    rewrite (saveAndRegisterMessage_calm s _ topic _ n idx1 _ []).
    + simpl. by rewrite Ht.
    + done.
    + fold p. simpl. by rewrite lookup_insert_eq.
Qed.

Lemma Store_on_a_topic_without_segment_witness :
  fst (Store Sample.s0 "orders" "hello" Sample.w0)
    = (-1, Some (Errorf "saveAndRegisterMessage(): %v"
                   (Errorf "file.Write(): %v"
                      (PathError "write" ["data"; "orders"; "seg0"] EBADF))))
  ∧ fs (snd (Store Sample.s0 "orders" "hello" Sample.w0))
    = <[ ["data"; "orders"; "seg0"] := Reg [] ]>
        (<[ ["data"; "orders"] := Dir ]> (fs Sample.w0)).
Proof.
  refine (Store_on_a_topic_without_segment (H := Sample.imports)
            Sample.s0 "orders" "hello" Sample.w0 [Byte.x00] ∅
            _ _ _ _ _ _ _ _ _).
  - reflexivity.
  - vm_compute. reflexivity.
  - reflexivity.
  - vm_compute. reflexivity.
  - vm_compute. reflexivity.
  - reflexivity.
  - vm_compute. reflexivity.
  - left. vm_compute. reflexivity.
  - vm_compute. discriminate.
Defined.

(** X10. Store for a topic that has an active segment, on a store in
    order and with no failure from outside.  If the segment's size and
    the encoded message together pass 1 MiB, a new segment file is made
    empty and the write goes to it; if not, the write goes to the active
    segment and nothing at all changes on disk.  Either way the write is
    refused and Store returns -1 with that error. *)
Theorem Store_on_a_topic_with_a_segment `{Imports} s topic msg w c idx held :
  let n := fst (index.NextMessageNumberFor topic idx) in
  let idx0 := snd (index.NextMessageNumberFor topic idx) in
  let cur := index.CurrentMsgFileNameFor topic idx0 in
  let b := gobEncode (mkStoredMessage msg (hd 0 (clock w)) n) in
  let path_of := λ name, filenamer.MessageFilePath name topic (rootDir s) in
  let full :=
    maximumFileSize <? wrap64 (Z.of_nat (length held) + Z.of_nat (length b)) in
  let f := if full then NewMsgFilenameFor topic idx0 else cur in
  faults w = [] →
  dir_status (fs w) (rootDir s) = None →
  fs w !! filenamer.IndexFile (rootDir s) = Some (Reg c) →
  indexParse c = Some idx →
  cur ≠ "" →
  fs w !! filenamer.DirectoryForTopic topic (rootDir s) = Some Dir →
  fs w !! path_of cur = Some (Reg held) →
  fs w !! path_of (NewMsgFilenameFor topic idx0) ≠ Some Dir →
  fst (Store s topic msg w)
    = (-1, Some (Errorf "saveAndRegisterMessage(): %v"
                   (Errorf "file.Write(): %v"
                      (PathError "write" (path_of f) EBADF))))
  ∧ fs (snd (Store s topic msg w))
    = if full then <[path_of f := Reg []]> (fs w) else fs w.
Proof.
  intros n idx0 cur b path_of full f Hf Hroot Hc Hparse Hcur Hd Hheld Hnew.
  rewrite Store_run. simpl.
  assert (faults (locked w) = []) as Hf0 by done.
  assert (fs (locked w) = fs w) as Hfs0 by done.
  assert (clock (locked w) = clock w) as Hck0 by done.
  generalize dependent (locked w). intros w0 Hf0 Hfs0 Hck0.
  unfold store, bind, ret.
  rewrite (retrieveIndexFromDisk_calm s w0 c), Hparse by (by rewrite ?Hfs0).
  rewrite createTopicDirIfNotExists_calm by (by rewrite ?Hfs0).
  rewrite Hfs0, Hd.
  subst f full path_of b cur idx0 n.
  destruct (index.NextMessageNumberFor topic idx) as [n idx0]. simpl in *.
  set (b := gobEncode (mkStoredMessage msg (hd 0 (clock w)) n)) in *.
  set (full := maximumFileSize <? _) in *.
  unfold makeMsgToStore, bind, ret.
  pose proof (time_Now_faults w0) as Hf3.
  pose proof (time_Now_value w0) as Hv3.
  destruct (time_Now w0) as [t w3] eqn:Ht. apply time_Now_fs in Ht.
  simpl in Hf3, Hv3. rewrite Hf0 in Hf3. rewrite Hfs0 in Ht.
  rewrite Hck0 in Hv3. subst t. fold b.
  rewrite decide_False by done.
  rewrite (fileHasInsufficentRoom_calm s _ topic _ w3 held)
    by (by rewrite ?Ht).
  fold full. destruct full.
  - destruct (setupNewFileForTopic_calm s topic idx0 w3) as [idx1 ->].
    + done.
    + by rewrite Ht.
    + by rewrite Ht.
    + rewrite (saveAndRegisterMessage_calm s _ topic _ n idx1 _ []).
      * simpl. by rewrite Ht.
      * done.
      * simpl. by rewrite lookup_insert_eq.
  - rewrite (saveAndRegisterMessage_calm s _ topic _ n idx0 _ held).
    + done.
    + done.
    + by rewrite Ht.
Qed.

Lemma Store_on_a_topic_with_a_segment_witness :
  fst (Store (H := Stocked.imports) Stocked.s0 "orders" "hello" Stocked.w0)
    = (-1, Some (Errorf "saveAndRegisterMessage(): %v"
                   (Errorf "file.Write(): %v"
                      (PathError "write" ["data"; "orders"; "seg0"] EBADF))))
  ∧ fs (snd (Store (H := Stocked.imports) Stocked.s0 "orders" "hello" Stocked.w0))
    = fs Stocked.w0.
Proof.
  refine (Store_on_a_topic_with_a_segment (H := Stocked.imports)
            Stocked.s0 "orders" "hello" Stocked.w0 [Byte.x01] Stocked.idx0
            [Byte.x68; Byte.x69] _ _ _ _ _ _ _ _).
  - reflexivity.
  - vm_compute. reflexivity.
  - vm_compute. reflexivity.
  - reflexivity.
  - vm_compute. discriminate.
  - vm_compute. reflexivity.
  - vm_compute. reflexivity.
  - vm_compute. discriminate.
Defined.

Lemma wrap64_small z : 0 ≤ z < 2^63 → wrap64 z = z.
Proof.
  intros Hz. unfold wrap64.
  rewrite Z.mod_small by lia. lia.
Qed.

(** X11. The check for room is strict.  For a segment file that is
    there, with no failure from outside, the file is found to have
    insufficient room exactly when its size and the message size
    together exceed 1048576: a message that fills the file to 1 MiB to
    the byte still has room.  The check changes nothing on disk. *)
Theorem room_check_is_strict s f topic msgSize w held :
  faults w = [] →
  fs w !! filenamer.MessageFilePath f topic (rootDir s) = Some (Reg held) →
  0 ≤ msgSize → Z.of_nat (length held) + msgSize < 2^63 →
  fst (fileHasInsufficentRoom s f topic msgSize w)
    = inr (bool_decide (1048576 < Z.of_nat (length held) + msgSize))
  ∧ fs (snd (fileHasInsufficentRoom s f topic msgSize w)) = fs w.
Proof.
  intros Hf Hheld Hm Hsum.
  rewrite (fileHasInsufficentRoom_calm s f topic msgSize w held) by done.
  simpl. split; [| done]. f_equal. rewrite wrap64_small by lia.
  unfold maximumFileSize. case_bool_decide; [by apply Z.ltb_lt | by apply Z.ltb_ge; lia].
Qed.

Lemma room_check_is_strict_witness :
  (fst (fileHasInsufficentRoom
          Stocked.s0 "seg0" "orders" 1048574 Stocked.w0) = inr false)
  ∧ (fst (fileHasInsufficentRoom
            Stocked.s0 "seg0" "orders" 1048575 Stocked.w0) = inr true).
Proof.
  split.
  - refine (proj1 (room_check_is_strict
                     Stocked.s0 "seg0" "orders" 1048574 Stocked.w0
                     [Byte.x68; Byte.x69] _ _ _ _)).
    + reflexivity.
    + vm_compute. reflexivity.
    + lia.
    + simpl. lia.
  - refine (proj1 (room_check_is_strict
                     Stocked.s0 "seg0" "orders" 1048575 Stocked.w0
                     [Byte.x68; Byte.x69] _ _ _ _)).
    + reflexivity.
    + vm_compute. reflexivity.
    + lia.
    + simpl. lia.
Defined.

Lemma lost_snoc m (d : path) n :
  lost m (d ++ [n]) =
  match d with
  | [] => ENOENT
  | _ => match m !! d with
         | Some (Reg _) => ENOTDIR
         | Some Dir => ENOENT
         | None => lost m d
         end
  end.
Proof.
  unfold lost. rewrite rev_app_distr. cbn [rev app tail].
  destruct d as [|x d]; [done |].
  assert (∀ up : list string, up ≠ [] →
            lost_below m up = match m !! rev up with
                              | Some (Reg _) => ENOTDIR
                              | Some Dir => ENOENT
                              | None => lost_below m (tail up)
                              end) as Hup
    by (by intros [|? ?]).
  rewrite Hup, rev_involutive; [done |].
  intros E%(f_equal (@rev _)). by rewrite rev_involutive in E.
Qed.

Lemma lost_in m (d : path) n :
  d ≠ [] →
  lost m (d ++ [n]) =
  match m !! d with
  | Some (Reg _) => ENOTDIR
  | Some Dir => ENOENT
  | None => lost m d
  end.
Proof. intros Hd. rewrite lost_snoc. by destruct d. Qed.

Lemma plain_name_nonempty n : plain_name n = true → n ≠ "".
Proof. by intros Hn ->. Qed.

(** X12. When the index names an active segment for the topic and the
    file of that segment is not on disk, Store (with no failure from
    outside, topic and segment name being plain names) stops in the
    check for room with the error of opening the file and the number
    -1: the file is not found, or, when a regular file is where the
    topic's directory should be, its path does not lead through a
    directory.  Store makes no new segment, and the most it has done on
    disk is to make the topic's directory. *)
Theorem Store_with_a_lost_segment `{Imports} s topic msg w c idx :
  let idx0 := snd (index.NextMessageNumberFor topic idx) in
  let cur := index.CurrentMsgFileNameFor topic idx0 in
  let d := filenamer.DirectoryForTopic topic (rootDir s) in
  let p := filenamer.MessageFilePath cur topic (rootDir s) in
  let e := match fs w !! d with Some (Reg _) => ENOTDIR | _ => ENOENT end in
  plain_name topic = true →
  plain_name cur = true →
  faults w = [] →
  dir_status (fs w) (rootDir s) = None →
  fs w !! filenamer.IndexFile (rootDir s) = Some (Reg c) →
  indexParse c = Some idx →
  fs w !! p = None →
  fst (Store s topic msg w)
    = (-1, Some (Errorf "fileHasInsufficietRoom(): %v"
                   (Errorf "os.Open(): %v" (PathError "open" p e))))
  ∧ fs (snd (Store s topic msg w))
    = match fs w !! d with Some _ => fs w | None => <[d := Dir]> (fs w) end.
Proof.
  intros idx0 cur d p e _ Hcur%plain_name_nonempty Hf Hroot Hc Hparse Hp.
  rewrite Store_run. simpl.
  assert (faults (locked w) = []) as Hf0 by done.
  assert (fs (locked w) = fs w) as Hfs0 by done.
  generalize dependent (locked w). intros w0 Hf0 Hfs0.
  unfold store, bind, ret.
  rewrite (retrieveIndexFromDisk_calm s w0 c), Hparse by (by rewrite ?Hfs0).
  rewrite createTopicDirIfNotExists_calm by (by rewrite ?Hfs0). fold d.
  set (w2 := match fs w0 !! d with Some _ => w0 | None => _ end).
  assert (faults w2 = []) as Hf2 by (unfold w2; by destruct (fs w0 !! d)).
  assert (fs w2 = match fs w !! d with
                  | Some _ => fs w
                  | None => <[d := Dir]> (fs w)
                  end) as Hfs2.
  { unfold w2. rewrite Hfs0. by destruct (fs w !! d). }
  assert (p ≠ d) as Hpd.
  { unfold p, d, filenamer.MessageFilePath, filenamer.DirectoryForTopic.
    intros Heq%(f_equal length). rewrite !length_app in Heq. simpl in Heq. lia. }
  assert (fs w2 !! p = None) as Hp2.
  { rewrite Hfs2. destruct (fs w !! d); [done |]. by rewrite lookup_insert_ne. }
  assert (lost (fs w2) p = e) as He.
  { unfold p, filenamer.MessageFilePath.
    replace (rootDir s ++ [topic; cur]) with (d ++ [cur])
      by (unfold d, filenamer.DirectoryForTopic; by rewrite <- app_assoc).
    rewrite lost_in by apply last_path_ne. subst e. rewrite Hfs2.
    destruct (fs w !! d) as [[]|] eqn:Hld;
      rewrite ?Hld, ?lookup_insert_eq; done. }
  clearbody w2.
  subst e p cur idx0.
  destruct (index.NextMessageNumberFor topic idx) as [n idx0]. simpl in *.
  unfold makeMsgToStore, bind, ret.
  pose proof (time_Now_faults w2) as Hf3.
  destruct (time_Now w2) as [t w3] eqn:Ht. apply time_Now_fs in Ht.
  simpl in Hf3. rewrite Hf2 in Hf3.
  rewrite decide_False by done.
  unfold fileHasInsufficentRoom, os_Open, bind, ret.
  rewrite os_OpenFile_calm by done.
  rewrite open_fs_nonempty
    by (unfold filenamer.MessageFilePath; by destruct (rootDir s)).
  rewrite Ht, Hp2. change (has_flag O_RDONLY O_CREATE) with false.
  cbn iota. rewrite He. simpl. by rewrite Ht.
Qed.

Lemma Store_with_a_lost_segment_witness :
  (* the directory of the topic is not there either *)
  (fst (Store (H := Stocked.imports) Stocked.s0 "orders" "hello" Stocked.w_lost)
     = (-1, Some (Errorf "fileHasInsufficietRoom(): %v"
                    (Errorf "os.Open(): %v"
                       (PathError "open" ["data"; "orders"; "seg0"] ENOENT))))
   ∧ fs (snd (Store (H := Stocked.imports) Stocked.s0 "orders" "hello"
                Stocked.w_lost))
     = <[ ["data"; "orders"] := Dir ]> (fs Stocked.w_lost))
  (* a regular file is where the directory of the topic should be *)
  ∧ (fst (Store (H := Stocked.imports) Stocked.s0 "orders" "hello"
            Stocked.w_taken)
       = (-1, Some (Errorf "fileHasInsufficietRoom(): %v"
                      (Errorf "os.Open(): %v"
                         (PathError "open" ["data"; "orders"; "seg0"] ENOTDIR))))
     ∧ fs (snd (Store (H := Stocked.imports) Stocked.s0 "orders" "hello"
                  Stocked.w_taken))
       = fs Stocked.w_taken).
Proof.
  split.
  - refine (Store_with_a_lost_segment (H := Stocked.imports)
              Stocked.s0 "orders" "hello" Stocked.w_lost [Byte.x01] Stocked.idx0
              _ _ _ _ _ _ _).
    + reflexivity.
    + reflexivity.
    + reflexivity.
    + vm_compute. reflexivity.
    + vm_compute. reflexivity.
    + reflexivity.
    + vm_compute. reflexivity.
  - refine (Store_with_a_lost_segment (H := Stocked.imports)
              Stocked.s0 "orders" "hello" Stocked.w_taken [Byte.x01] Stocked.idx0
              _ _ _ _ _ _ _).
    + reflexivity.
    + reflexivity.
    + reflexivity.
    + vm_compute. reflexivity.
    + vm_compute. reflexivity.
    + reflexivity.
    + vm_compute. reflexivity.
Defined.

Lemma next_fault_not_EEXIST w e w0 : next_fault w = (Some e, w0) → e ≠ EEXIST.
Proof.
  unfold next_fault. destruct (faults w) as [|[[]|] ?]; by intros [= <- _].
Qed.

Lemma os_Mkdir_EEXIST name perm w op p w1 :
  os_Mkdir name perm w = (Some (PathError op p EEXIST), w1) →
  name ≠ [] → is_Some (fs w !! name) ∧ fs w1 = fs w.
Proof.
  unfold os_Mkdir, bind, ret. intros Hm Hne.
  destruct (next_fault w) as [f w0] eqn:Hf.
  destruct f as [e|].
  - apply next_fault_not_EEXIST in Hf. by injection Hm as _ _ He _.
  - apply next_fault_fs in Hf.
    rewrite mkdir_fs_nonempty in Hm by done. rewrite Hf in Hm.
    destruct (dir_status _ _) as [e|] eqn:Hd.
    + injection Hm as _ _ -> <-. exfalso.
      by apply dir_status_cases in Hd as [? | ?].
    + destruct (fs w !! name) eqn:Hl; [| done].
      injection Hm as _ _ <-. eauto.
Qed.

Lemma os_Mkdir_made name perm w w1 :
  os_Mkdir name perm w = (None, w1) →
  fs w !! name = None ∧ fs w1 = <[name := Dir]> (fs w).
Proof.
  unfold os_Mkdir, bind, ret.
  destruct (next_fault w) as [f w0] eqn:Hf. apply next_fault_fs in Hf.
  destruct f; [done |]. unfold mkdir_fs.
  destruct name as [|n name]; [done |].
  destruct (dir_status _ _); [done |].
  destruct (fs w0 !! (n :: name)) eqn:Hl; [done |].
  intros [= <-]. simpl. by rewrite <- Hf.
Qed.

(** X13. What [createTopicDirIfNotExists] leaves when it returns nil:
    something is at the topic's path, and it is a directory unless a
    regular file was there before, in which case nothing has changed and
    that file still is where the directory should be. *)
Theorem topic_directory_after_nil s topic w w1 :
  let d := filenamer.DirectoryForTopic topic (rootDir s) in
  createTopicDirIfNotExists s topic w = (None, w1) →
  (fs w1 !! d = Some Dir ∧ (fs w1 = fs w ∨ fs w1 = <[d := Dir]> (fs w)))
  ∨ (∃ c, fs w !! d = Some (Reg c) ∧ fs w1 = fs w).
Proof.
  intros d. unfold createTopicDirIfNotExists, bind, ret. fold d.
  destruct (os_Mkdir d 511 w) as [[e|] w0] eqn:Hm.
  - destruct e as [op p []| |]; try done. simpl. intros [= <-].
    apply os_Mkdir_EEXIST in Hm as [[x Hx] Hfs]; [| apply last_path_ne].
    rewrite Hfs. destruct x; [left | right]; eauto.
  - intros [= <-]. left. apply os_Mkdir_made in Hm as [_ Hfs].
    rewrite Hfs, lookup_insert_eq. eauto.
Qed.

Lemma topic_directory_after_nil_witness :
  ∃ c, fs Sample.w0 !! ["data"; "index"] = Some (Reg c)
       ∧ fs (snd (createTopicDirIfNotExists Sample.s0 "index" Sample.w0))
         = fs Sample.w0.
Proof.
  destruct (topic_directory_after_nil Sample.s0 "index" Sample.w0
              (snd (createTopicDirIfNotExists Sample.s0 "index" Sample.w0)))
    as [[Hdir _] | Hreg].
  - vm_compute. reflexivity.
  - exfalso. vm_compute in Hdir. discriminate.
  - exact Hreg.
Defined.

(** X14. A topic whose directory path is taken by a regular file, as the
    topic named "index" is by the index file: the directory step passes
    (the path "exists"), and Store, with no failure from outside, stops
    in setting up the segment file, whose parent is not a directory.
    Nothing changes on disk. *)
Theorem Store_on_a_topic_named_like_a_file `{Imports} s topic msg w c idx x :
  let idx0 := snd (index.NextMessageNumberFor topic idx) in
  let d := filenamer.DirectoryForTopic topic (rootDir s) in
  let p := filenamer.MessageFilePath (NewMsgFilenameFor topic idx0) topic
             (rootDir s) in
  faults w = [] →
  dir_status (fs w) (rootDir s) = None →
  fs w !! filenamer.IndexFile (rootDir s) = Some (Reg c) →
  indexParse c = Some idx →
  index.CurrentMsgFileNameFor topic idx0 = "" →
  fs w !! d = Some (Reg x) →
  fs w !! p = None →
  fst (Store s topic msg w)
    = (-1, Some (Errorf "setupNewFileForTopic(): %v"
                   (Errorf "os.Create(): %v" (PathError "open" p ENOTDIR))))
  ∧ fs (snd (Store s topic msg w)) = fs w.
Proof.
  intros idx0 d p Hf Hroot Hc Hparse Hcur Hd Hp.
  rewrite Store_run. simpl.
  assert (faults (locked w) = []) as Hf0 by done.
  assert (fs (locked w) = fs w) as Hfs0 by done.
  generalize dependent (locked w). intros w0 Hf0 Hfs0.
  unfold store, bind, ret.
  rewrite (retrieveIndexFromDisk_calm s w0 c), Hparse by (by rewrite ?Hfs0).
  rewrite createTopicDirIfNotExists_calm by (by rewrite ?Hfs0).
  fold d. rewrite Hfs0, Hd.
  subst p idx0.
  destruct (index.NextMessageNumberFor topic idx) as [n idx0]. simpl in *.
  unfold makeMsgToStore, bind, ret.
  pose proof (time_Now_faults w0) as Hf3.
  destruct (time_Now w0) as [t w3] eqn:Ht. apply time_Now_fs in Ht.
  simpl in Hf3. rewrite Hf0 in Hf3. rewrite Hfs0 in Ht.
  rewrite decide_True by done.
  unfold setupNewFileForTopic, os_Create, bind, ret.
  rewrite os_OpenFile_calm by done.
  set (p := filenamer.MessageFilePath _ topic (rootDir s)) in *.
  assert (p ≠ []) as Hne.
  { unfold p, filenamer.MessageFilePath. by destruct (rootDir s). }
  rewrite open_fs_nonempty by done. rewrite Ht, Hp.
  change (has_flag _ O_CREATE) with true. cbn iota.
  assert (dir_status (fs w) (parent p) = Some ENOTDIR) as ->.
  { unfold p, filenamer.MessageFilePath.
    replace (rootDir s ++ [topic; NewMsgFilenameFor topic idx0])
      with ((rootDir s ++ [topic]) ++ [NewMsgFilenameFor topic idx0])
      by (by rewrite <- app_assoc).
    rewrite parent_snoc. unfold dir_status.
    destruct (rootDir s ++ [topic]) eqn:E; [by destruct (rootDir s) |].
    rewrite <- E. unfold d, filenamer.DirectoryForTopic in Hd. by rewrite Hd. }
  simpl. by rewrite Ht.
Qed.

Lemma Store_on_a_topic_named_like_a_file_witness :
  fst (Store Sample.s0 "index" "hello" Sample.w0)
    = (-1, Some (Errorf "setupNewFileForTopic(): %v"
                   (Errorf "os.Create(): %v"
                      (PathError "open" ["data"; "index"; "seg0"] ENOTDIR))))
  ∧ fs (snd (Store Sample.s0 "index" "hello" Sample.w0)) = fs Sample.w0.
Proof.
  refine (Store_on_a_topic_named_like_a_file (H := Sample.imports)
            Sample.s0 "index" "hello" Sample.w0 [Byte.x00] ∅ [Byte.x00]
            _ _ _ _ _ _ _).
  - reflexivity.
  - vm_compute. reflexivity.
  - vm_compute. reflexivity.
  - reflexivity.
  - vm_compute. reflexivity.
  - vm_compute. reflexivity.
  - vm_compute. reflexivity.
Defined.

(** X15. [retrieveIndexFromDisk] never changes the disk, and with no
    failure from outside it returns an index exactly when the index file
    is a regular file whose bytes read as that index. *)
Theorem index_is_read_from_the_file `{Imports} s w idx :
  fs (snd (retrieveIndexFromDisk s w)) = fs w
  ∧ (faults w = [] →
     (fst (retrieveIndexFromDisk s w) = inr idx
      ↔ ∃ c, fs w !! filenamer.IndexFile (rootDir s) = Some (Reg c)
             ∧ indexParse c = Some idx)).
Proof.
  split.
  - exact (proj1 (retrieveIndexFromDisk_fs s w _ _ (surjective_pairing _))).
  - intros Hf. split.
    + intros Hr.
      apply (proj2 (retrieveIndexFromDisk_fs s w _ _ (surjective_pairing _))).
      done.
    + intros (c & Hc & Hp). rewrite (retrieveIndexFromDisk_calm s w c) by done.
      by rewrite Hp.
Qed.

Lemma index_is_read_from_the_file_witness :
  fst (retrieveIndexFromDisk (H := Stocked.imports) Stocked.s0 Stocked.w0)
  = inr Stocked.idx0.
Proof.
  apply (proj2 (index_is_read_from_the_file (H := Stocked.imports)
                  Stocked.s0 Stocked.w0 Stocked.idx0)).
  - reflexivity.
  - exists [Byte.x01]. split; [vm_compute |]; reflexivity.
Defined.

(** X16. [saveIndex] saves nothing.  It opens the index file with
    [os.Open], for reading, and the encoder's write is refused: on every
    store and for every index it returns an error and leaves the disk as
    it was. *)
Theorem saveIndex_never_saves `{Imports} s idx w :
  (∃ e, fst (saveIndex s idx w) = Some e)
  ∧ fs (snd (saveIndex s idx w)) = fs w.
Proof.
  destruct (saveIndex_fails s idx w _ _ (surjective_pairing _)) as [Hfs He].
  done.
Qed.

(** X17. [saveAndRegisterMessage] writes nothing and registers nothing:
    on every store it returns an error and no index, and leaves the
    disk as it was. *)
Theorem saveAndRegisterMessage_never_writes `{Imports} s f topic b n idx w :
  (∃ e, fst (saveAndRegisterMessage s f topic b n idx w) = inl e)
  ∧ fs (snd (saveAndRegisterMessage s f topic b n idx w)) = fs w.
Proof.
  destruct (saveAndRegisterMessage_fails s f topic b n idx w _ _
              (surjective_pairing _)) as [Hfs He].
  done.
Qed.

(** X18. [setupNewFileForTopic] either fails and changes nothing on disk,
    or returns the name [NewMsgFilenameFor] gives and leaves the file of
    that name empty: what a file of that name held before is lost. *)
Theorem setupNewFileForTopic_makes_or_empties `{Imports} s topic idx w :
  let name := NewMsgFilenameFor topic idx in
  let p := filenamer.MessageFilePath name topic (rootDir s) in
  let r := setupNewFileForTopic s topic idx w in
  ((∃ e, fst r = inl e) ∧ fs (snd r) = fs w)
  ∨ ((∃ idx1, fst r = inr (name, idx1))
     ∧ fs (snd r) = <[p := Reg []]> (fs w)).
Proof.
  intros name p r.
  destruct (setupNewFileForTopic_fs s topic idx w _ _ (surjective_pairing _))
    as [[Hfs He] | [Hfs He]]; [left | right]; done.
Qed.

Section early.
Context `{Imports}.

Lemma storeUpToWrite_early s topic msg w res w1 :
  let d := filenamer.DirectoryForTopic topic (rootDir s) in
  storeUpToWrite s topic msg w = (inl res, w1) →
  fs w1 = fs w ∨ (fs w !! d = None ∧ fs w1 = <[d := Dir]> (fs w)).
Proof.
  intros d. unfold storeUpToWrite, bind, ret. intros Hs.
  destruct (retrieveIndexFromDisk s w) as [r0 w0] eqn:Hr.
  apply retrieveIndexFromDisk_fs in Hr as [Hfs0 _].
  destruct r0 as [e|idx]; [simplify_eq; by left |].
  destruct (createTopicDirIfNotExists s topic w0) as [r1 w2] eqn:Hd.
  apply createTopicDirIfNotExists_fs in Hd. rewrite Hfs0 in Hd. fold d in Hd.
  assert (fs w2 = fs w ∨ (fs w !! d = None ∧ fs w2 = <[d := Dir]> (fs w)))
    as Hdir by (destruct Hd as [? | (_ & ? & ?)]; eauto).
  clear Hd.
  destruct r1 as [e|]; [simplify_eq; exact Hdir |].
  destruct (index.NextMessageNumberFor topic idx) as [n idx0].
  destruct (makeMsgToStore s msg n w2) as [b w3] eqn:Hm.
  apply makeMsgToStore_fs in Hm. rewrite <- Hm in Hdir.
  match type of Hs with
  | context [let (_, _) := ?c w3 in _] =>
      destruct (c w3) as [r2 w4] eqn:Hroom;
      assert (fs w4 = fs w3) as Hfs4
  end.
  { destruct (decide _); [by simplify_eq |].
    by eapply fileHasInsufficentRoom_fs. }
  clear Hroom. rewrite <- Hfs4 in Hdir.
  destruct r2 as [e|needNewFile]; [simplify_eq; exact Hdir |].
  destruct needNewFile.
  - destruct (setupNewFileForTopic s topic idx0 w4) as [r3 w5] eqn:Hsetup.
    apply setupNewFileForTopic_fs in Hsetup as [[Hfs5 [e ->]] | [_ [idx2 ->]]];
      [| done].
    rewrite <- Hfs5 in Hdir. simplify_eq. exact Hdir.
  - done.
Qed.
End early.

(** X19. A Store that fails before the write (in loading the index,
    making the directory, checking for room or setting up the new file)
    has made or changed no segment file: the disk is as it was, but for
    the topic's directory, which may be new. *)
Theorem Store_failing_before_the_write `{Imports} s topic msg w n fmt cause w1 :
  let d := filenamer.DirectoryForTopic topic (rootDir s) in
  Store s topic msg w = ((n, Some (Errorf fmt cause)), w1) →
  fmt ∈ take 4 store_error_formats →
  fs w1 = fs w ∨ (fs w !! d = None ∧ fs w1 = <[d := Dir]> (fs w)).
Proof.
  intros d. rewrite Store_run. intros [= Hr <-] Hfmt. simpl.
  pose proof (store_split s topic msg (locked w)) as Hsplit.
  unfold bind, ret in Hsplit.
  destruct (storeUpToWrite s topic msg (locked w))
    as [[res|[[[f b] n0] idx]] w2] eqn:Hup.
  - rewrite Hsplit. by apply storeUpToWrite_early in Hup.
  - exfalso. rewrite Hsplit in Hr. clear Hsplit.
    unfold store_error_formats in Hfmt. simpl in Hfmt.
    destruct (saveAndRegisterMessage _ _ _ _ _ _ w2) as [[e|idx'] w3].
    + injection Hr as _ <- _.
      repeat (apply elem_of_cons in Hfmt as [[=] | Hfmt]).
      by apply elem_of_nil in Hfmt.
    + destruct (saveIndex s idx' w3) as [[e|] w4]; [| done].
      injection Hr as _ <- _.
      repeat (apply elem_of_cons in Hfmt as [[=] | Hfmt]).
      by apply elem_of_nil in Hfmt.
Qed.

Lemma Store_failing_before_the_write_witness :
  fs (snd (Store Sample.s0 "index" "hello" Sample.w0)) = fs Sample.w0
  ∨ (fs Sample.w0 !! ["data"; "index"] = None
     ∧ fs (snd (Store Sample.s0 "index" "hello" Sample.w0))
       = <[ ["data"; "index"] := Dir ]> (fs Sample.w0)).
Proof.
  refine (Store_failing_before_the_write (H := Sample.imports)
            Sample.s0 "index" "hello" Sample.w0 (-1)
            "setupNewFileForTopic(): %v"
            (Errorf "os.Create(): %v"
               (PathError "open" ["data"; "index"; "seg0"] ENOTDIR))
            (snd (Store Sample.s0 "index" "hello" Sample.w0)) _ _).
  - vm_compute. reflexivity.
  - apply (list_elem_of_lookup_2 _ 3%nat). reflexivity.
Defined.

(** X20. No call of Store assigns a number.  [saveAndRegisterMessage]
    opens the segment file with [os.O_APPEND] alone, which is read-only
    access, so the write is refused when the steps before it have not
    failed already: whatever the store, the topic and the message, Store
    returns -1 together with an error. *)
Theorem Store_never_assigns_a_number `{Imports} s topic msg w :
  ∃ e, fst (Store s topic msg w) = (-1, Some e).
Proof. rewrite Store_run. simpl. apply store_fails. Qed.
